(** * jsSMS memory utilities ([src/utils.js]): a shallow embedding

    [JSSMS.Utils] provides the emulator's memory accessors ([writeMem],
    [readMem], [readMemWord]) and the bulk copy [copyArrayElements].  Each of
    them exists in two variants selected once by [SUPPORT_DATAVIEW]: one over
    [DataView] byte buffers and one over plain JavaScript arrays.  Both variants
    are embedded here, each in its own module, over a common store of
    heap-allocated blocks and the two page maps of the emulator object. *)

From Stdlib Require Import ZArith Lia Bool.
From Stdlib Require Import Strings.Byte Strings.Ascii.
From stdpp Require Import base numbers option list gmap strings.

Local Open Scope Z_scope.

(** ** JavaScript numbers and bit operators

    Addresses, offsets and stored values are integral JavaScript numbers,
    modelled as [Z].  The bit operators first convert their operands with
    [ToInt32]; the wrap-around is written out. *)

Definition toInt32 (z : Z) : Z := (z + 2 ^ 31) mod 2 ^ 32 - 2 ^ 31.

(** [a & b] *)
Definition js_and (a b : Z) : Z := Z.land (toInt32 a) (toInt32 b).

(** [a | b] *)
Definition js_or (a b : Z) : Z := Z.lor (toInt32 a) (toInt32 b).

(** [a >> n] (sign-propagating; the shift count is taken modulo 32) *)
Definition js_shr (a n : Z) : Z := Z.shiftr (toInt32 a) (n mod 32).

(** [a << n] *)
Definition js_shl (a n : Z) : Z := toInt32 (Z.shiftl (toInt32 a) (n mod 32)).

(** A JavaScript value as the memory arrays hold it: a number, or [undefined]
    (what reading a missing element yields). *)
Inductive JsVal : Type :=
  | Undefined
  | Num (z : Z).

(** [ToInt32] on a value: [undefined] converts to [NaN] and then to [0]. *)
Definition val_toInt32 (v : JsVal) : Z :=
  match v with
  | Undefined => 0
  | Num z => toInt32 z
  end.

(** [v & 0xFF] on a value read from an array. *)
Definition val_and (v : JsVal) (m : Z) : Z := Z.land (val_toInt32 v) (toInt32 m).

(** ** Exceptions, events and outcomes *)

(** The exceptions the platform raises on these code paths: a property access
    or method call on [undefined] is a [TypeError]; a [DataView] access outside
    the buffer is a [RangeError]. *)
Inductive JsError : Type :=
  | TypeError
  | RangeError.

Inductive result (A : Type) : Type :=
  | Ok (a : A)
  | Throw (e : JsError).
Arguments Ok {A} a.
Arguments Throw {A} e.

(** What an accessor does besides touching memory. *)
Inductive Event : Type :=
  | ConsoleError (address page offset : Z)   (* console.error(address, address >> 10, address & 0x3FF) *)
  | Debugger                                 (* the [debugger] statement *)
  | CallPage (reg value : Z).                (* this.page(reg, value) *)

(** ** Bytes of an [ArrayBuffer] *)

Definition Z_of_byte (b : byte) : Z := Z.of_N (Byte.to_N b).

Definition byte_of_Z (z : Z) : byte :=
  match Byte.of_N (Z.to_N (z mod 256)) with
  | Some b => b
  | None => x00
  end.

(** Signed reading of a byte ([Int8]). *)
Definition int8_of_byte (b : byte) : Z :=
  let u := Z_of_byte b in if u <? 128 then u else u - 256.

(** ** The store

    Blocks are objects: the same block may be bound to several pages, in the
    read map and in the write map, and be the source and the destination of a
    copy.  A block is therefore named by a reference into a heap. *)

Definition Ref := nat.

Section Store.
Context {B : Type}.

(** [this]: the two page maps are JavaScript arrays whose entries are block
    references, or [undefined] where nothing is bound. *)
Record Store : Type := mkStore {
  blocks : gmap Ref B;
  memReadMap : list (option Ref);
  memWriteMap : list (option Ref)
}.

(** Indexing a JavaScript array with a number: a negative or too large index
    yields [undefined]. *)
Definition js_index {A : Type} (l : list A) (i : Z) : option A :=
  if i <? 0 then None else l !! Z.to_nat i.

(** [map[i]] as an object: [None] stands for [undefined]. *)
Definition resolve (h : gmap Ref B) (map : list (option Ref)) (i : Z) : option (Ref * B) :=
  match js_index map i with
  | Some (Some r) =>
      match h !! r with
      | Some b => Some (r, b)
      | None => None
      end
  | _ => None
  end.

Record Outcome (A : Type) : Type := mkOutcome {
  trace : list Event;
  final : Store;
  value : result A
}.

(** Computations over the store that may log events and may throw. *)
Definition M (A : Type) : Type := Store -> Outcome A.

Definition ret {A : Type} (a : A) : M A :=
  fun s => mkOutcome A [] s (Ok a).

Definition throw {A : Type} (e : JsError) : M A :=
  fun s => mkOutcome A [] s (Throw e).

Definition bind {A C : Type} (m : M A) (f : A -> M C) : M C :=
  fun s =>
    let o := m s in
    match value A o with
    | Ok a =>
        let o' := f a (final A o) in
        mkOutcome C (trace A o ++ trace C o') (final C o') (value C o')
    | Throw e => mkOutcome C (trace A o) (final A o) (Throw e)
    end.

Definition emit (evs : list Event) : M unit :=
  fun s => mkOutcome unit evs s (Ok tt).

Definition get_store : M Store :=
  fun s => mkOutcome Store [] s (Ok s).

Definition set_blocks (h : gmap Ref B) : M unit :=
  fun s => mkOutcome unit [] (mkStore h (memReadMap s) (memWriteMap s)) (Ok tt).

(** The paging handler [this.page] belongs to the emulator object and is
    not part of [utils.js]: it receives the register index and the value,
    may rebind pages and move memory, and may throw. *)
Definition Handler : Type := Z -> Z -> Store -> Store * result unit.

Definition call_page (page : Handler) (reg v : Z) : M unit :=
  fun s =>
    let '(s', r) := page reg v s in
    mkOutcome unit [CallPage reg v] s' r.
End Store.

Arguments Store : clear implicits.
Arguments Outcome : clear implicits.
Arguments M : clear implicits.
Arguments Handler : clear implicits.
Arguments mkOutcome {B A} _ _ _.
Arguments trace {B A} _.
Arguments final {B A} _.
Arguments value {B A} _.

Notation "'let!' x ':=' m 'in' k" := (bind m (fun x => k))
  (at level 10, x name, m at level 100, k at level 200).
Notation "'run!' m 'in' k" := (bind m (fun _ => k))
  (at level 10, m at level 100, k at level 200).

(** The result of a bulk copy: how many element copies were performed, the
    heap they left, and how the call completed. *)
Record CopyOutcome (B : Type) : Type := mkCopy {
  copied : nat;
  heap_after : gmap Ref B;
  completion : result unit
}.
Arguments mkCopy {B} _ _ _.
Arguments copied {B} _.
Arguments heap_after {B} _.
Arguments completion {B} _.

(** Modelled from the spec: the constant [LITTLE_ENDIAN] handed to
    [getUint16] is declared outside [utils.js]; the spec describes the word
    read as a single little-endian 16-bit read. *)
Definition LITTLE_ENDIAN : bool := true.

(** ** The [DataView] variant ([SUPPORT_DATAVIEW] true) *)
Module DataViewImpl.

(** A [DataView] over its own [ArrayBuffer]: the bytes. *)
Definition byteLength (d : list byte) : Z := Z.of_nat (length d).

(** [d.getUint8(i)] *)
Definition getUint8 (d : list byte) (i : Z) : result Z :=
  if (i <? 0) || (byteLength d <? i + 1) then Throw RangeError
  else match d !! Z.to_nat i with
       | Some b => Ok (Z_of_byte b)
       | None => Throw RangeError
       end.

(** [d.getInt8(i)] *)
Definition getInt8 (d : list byte) (i : Z) : result Z :=
  if (i <? 0) || (byteLength d <? i + 1) then Throw RangeError
  else match d !! Z.to_nat i with
       | Some b => Ok (int8_of_byte b)
       | None => Throw RangeError
       end.

(** [d.setInt8(i, v)]: the value is stored modulo 256. *)
Definition setInt8 (d : list byte) (i v : Z) : result (list byte) :=
  if (i <? 0) || (byteLength d <? i + 1) then Throw RangeError
  else Ok (<[Z.to_nat i := byte_of_Z v]> d).

(** [d.getUint16(i, littleEndian)] *)
Definition getUint16 (d : list byte) (i : Z) (littleEndian : bool) : result Z :=
  if (i <? 0) || (byteLength d <? i + 2) then Throw RangeError
  else match d !! Z.to_nat i, d !! Z.to_nat (i + 1) with
       | Some b0, Some b1 =>
           Ok (if littleEndian then Z_of_byte b0 + 256 * Z_of_byte b1
               else 256 * Z_of_byte b0 + Z_of_byte b1)
       | _, _ => Throw RangeError
       end.

(** One round of the loop body of [copyArrayElements]:
    [dest.setInt8(destPos + length, src.getInt8(srcPos + length))]. *)
Definition copy_step (src : Ref) (srcPos : Z) (dest : Ref) (destPos : Z)
    (length : Z) (h : gmap Ref (list byte)) : result (gmap Ref (list byte)) :=
  match h !! dest with
  | None => Throw TypeError
  | Some d =>
      match h !! src with
      | None => Throw TypeError
      | Some s =>
          match getInt8 s (srcPos + length) with
          | Throw e => Throw e
          | Ok x =>
              match setInt8 d (destPos + length) x with
              | Throw e => Throw e
              | Ok d' => Ok (<[dest := d']> h)
              end
          end
      end
  end.

(** [while (length--) { ... }]: the test reads [length] before the
    decrement; the body sees the decremented value.  [fuel] bounds the
    number of tests, [n] counts the element copies done so far. *)
Fixpoint copy_loop (fuel : nat) (src : Ref) (srcPos : Z) (dest : Ref) (destPos : Z)
    (length : Z) (n : nat) (h : gmap Ref (list byte)) : option (CopyOutcome (list byte)) :=
  match fuel with
  | O => None
  | S fuel' =>
      if length =? 0 then Some (mkCopy n h (Ok tt))
      else
        let length := length - 1 in
        match copy_step src srcPos dest destPos length h with
        | Throw e => Some (mkCopy n h (Throw e))
        | Ok h' => copy_loop fuel' src srcPos dest destPos length (S n) h'
        end
  end.

Definition copyArrayElements (fuel : nat) (src : Ref) (srcPos : Z) (dest : Ref)
    (destPos : Z) (length : Z) (h : gmap Ref (list byte)) : option (CopyOutcome (list byte)) :=
  copy_loop fuel src srcPos dest destPos length O h.

(** The condition of the [DEBUG] blocks, on the map the accessor uses:
    [(address >> 10) >= map.length || !map[address >> 10] ||
     (address & 0x3FF) >= map[address >> 10].byteLength]. *)
Definition debug_fault (h : gmap Ref (list byte)) (map : list (option Ref)) (address : Z) : bool :=
  (Z.of_nat (length map) <=? js_shr address 10)
  || match resolve h map (js_shr address 10) with
     | None => true
     | Some (_, d) => byteLength d <=? js_and address 0x3FF
     end.

(** [if (DEBUG && ...) { console.error(...); debugger; }] *)
Definition debug_check (DEBUG : bool) (map : Store (list byte) -> list (option Ref))
    (address : Z) : M (list byte) unit :=
  let! s := get_store in
  if DEBUG && debug_fault (blocks s) (map s) address
  then emit [ConsoleError address (js_shr address 10) (js_and address 0x3FF); Debugger]
  else ret tt.

(** [this.memWriteMap[page].setInt8(offset, value)] *)
Definition store_int8 (page offset value : Z) : M (list byte) unit :=
  let! s := get_store in
  match resolve (blocks s) (memWriteMap s) page with
  | None => throw TypeError
  | Some (r, d) =>
      match setInt8 d offset value with
      | Throw e => throw e
      | Ok d' => set_blocks (<[r := d']> (blocks s))
      end
  end.

(** [this.memReadMap[page].getUint8(offset)] *)
Definition load_uint8 (page offset : Z) : M (list byte) Z :=
  let! s := get_store in
  match resolve (blocks s) (memReadMap s) page with
  | None => throw TypeError
  | Some (_, d) =>
      match getUint8 d offset with
      | Throw e => throw e
      | Ok x => ret x
      end
  end.

(** [this.memReadMap[page].getUint16(offset, LITTLE_ENDIAN)] *)
Definition load_uint16 (page offset : Z) : M (list byte) Z :=
  let! s := get_store in
  match resolve (blocks s) (memReadMap s) page with
  | None => throw TypeError
  | Some (_, d) =>
      match getUint16 d offset LITTLE_ENDIAN with
      | Throw e => throw e
      | Ok x => ret x
      end
  end.

Section Accessors.
Variable DEBUG : bool.
Variable page : Handler (list byte).

Definition writeMem (address value : Z) : M (list byte) unit :=
  run! debug_check DEBUG memWriteMap address in
  run! store_int8 (js_shr address 10) (js_and address 0x3FF) value in
  (* Paging registers *)
  if 0xFFFC <=? address
  then call_page page (js_and address 3) value
  else ret tt.

Definition readMem (address : Z) : M (list byte) Z :=
  run! debug_check DEBUG memReadMap address in
  load_uint8 (js_shr address 10) (js_and address 0x3FF).

Definition readMemWord (address : Z) : M (list byte) Z :=
  run! debug_check DEBUG memReadMap address in
  if js_and address 0x3FF <? 0x3FF
  then load_uint16 (js_shr address 10) (js_and address 0x3FF)
  else
    let! lo := load_uint8 (js_shr address 10) (js_and address 0x3FF) in
    let address := address + 1 in
    let! hi := load_uint8 (js_shr address 10) (js_and address 0x3FF) in
    ret (js_or lo (js_shl hi 8)).
End Accessors.

End DataViewImpl.

(** ** The plain-array variant ([SUPPORT_DATAVIEW] false) *)
Module ArrayImpl.

(** A JavaScript array of numbers: its elements by index.  Storing at any
    index succeeds (the array grows); reading a missing element yields
    [undefined]. *)
Definition get (a : gmap Z JsVal) (i : Z) : JsVal :=
  match a !! i with
  | Some v => v
  | None => Undefined
  end.

Definition set (a : gmap Z JsVal) (i : Z) (v : JsVal) : gmap Z JsVal :=
  <[i := v]> a.

(** One round of the loop body of [copyArrayElements]:
    [dest[destPos + length] = src[srcPos + length]]. *)
Definition copy_step (src : Ref) (srcPos : Z) (dest : Ref) (destPos : Z)
    (length : Z) (h : gmap Ref (gmap Z JsVal)) : result (gmap Ref (gmap Z JsVal)) :=
  match h !! dest with
  | None => Throw TypeError
  | Some d =>
      match h !! src with
      | None => Throw TypeError
      | Some s => Ok (<[dest := set d (destPos + length) (get s (srcPos + length))]> h)
      end
  end.

(** [while (length--) { ... }], as in the [DataView] variant. *)
Fixpoint copy_loop (fuel : nat) (src : Ref) (srcPos : Z) (dest : Ref) (destPos : Z)
    (length : Z) (n : nat) (h : gmap Ref (gmap Z JsVal)) : option (CopyOutcome (gmap Z JsVal)) :=
  match fuel with
  | O => None
  | S fuel' =>
      if length =? 0 then Some (mkCopy n h (Ok tt))
      else
        let length := length - 1 in
        match copy_step src srcPos dest destPos length h with
        | Throw e => Some (mkCopy n h (Throw e))
        | Ok h' => copy_loop fuel' src srcPos dest destPos length (S n) h'
        end
  end.

Definition copyArrayElements (fuel : nat) (src : Ref) (srcPos : Z) (dest : Ref)
    (destPos : Z) (length : Z) (h : gmap Ref (gmap Z JsVal)) : option (CopyOutcome (gmap Z JsVal)) :=
  copy_loop fuel src srcPos dest destPos length O h.

(** [this.memWriteMap[page][offset] = value] *)
Definition store_elem (page offset value : Z) : M (gmap Z JsVal) unit :=
  let! s := get_store in
  match resolve (blocks s) (memWriteMap s) page with
  | None => throw TypeError
  | Some (r, a) => set_blocks (<[r := set a offset (Num value)]> (blocks s))
  end.

(** [this.memReadMap[page][offset] & 0xFF] *)
Definition load_elem (page offset : Z) : M (gmap Z JsVal) Z :=
  let! s := get_store in
  match resolve (blocks s) (memReadMap s) page with
  | None => throw TypeError
  | Some (_, a) => ret (val_and (get a offset) 0xFF)
  end.

Section Accessors.
Variable page : Handler (gmap Z JsVal).

Definition writeMem (address value : Z) : M (gmap Z JsVal) unit :=
  run! store_elem (js_shr address 10) (js_and address 0x3FF) value in
  (* Paging registers *)
  if 0xFFFC <=? address
  then call_page page (js_and address 3) value
  else ret tt.

Definition readMem (address : Z) : M (gmap Z JsVal) Z :=
  load_elem (js_shr address 10) (js_and address 0x3FF).

Definition readMemWord (address : Z) : M (gmap Z JsVal) Z :=
  let! lo := load_elem (js_shr address 10) (js_and address 0x3FF) in
  let address := address + 1 in
  let! hi := load_elem (js_shr address 10) (js_and address 0x3FF) in
  ret (js_or lo (js_shl hi 8)).
End Accessors.

End ArrayImpl.

(** ** Concrete stores used below *)

(** A block of [n] zero bytes, as [new DataView(new ArrayBuffer(n))]. *)
Definition zero_bytes (n : nat) : list byte := replicate n x00.

(** An array holding [0] at the indices [0 .. n-1]. *)
Fixpoint zero_array (n : nat) : gmap Z JsVal :=
  match n with
  | O => ∅
  | S k => <[Z.of_nat k := Num 0]> (zero_array k)
  end.

(** A handler that does nothing. *)
Definition page_nop {B : Type} : Handler B := fun _ _ s => (s, Ok tt).

(** A handler that rebinds read page [p] to the block [r], as a mapper does
    when it switches banks. *)
Definition page_rebind {B : Type} (p : nat) (r : Ref) : Handler B :=
  fun _ _ s => (mkStore (blocks s) (<[p := Some r]> (memReadMap s)) (memWriteMap s), Ok tt).

(** ** Definitions used to state the properties *)

(** Combining the outcomes of two byte reads into a word:
    [lo | (hi << 8)], the first failure winning. *)
Definition word_of (lo hi : result Z) : result Z :=
  match lo with
  | Throw e => Throw e
  | Ok l =>
      match hi with
      | Throw e => Throw e
      | Ok h => Ok (Z.lor l (Z.shiftl h 8))
      end
  end.

(** The calls of the paging handler recorded in a trace, in order. *)
Definition page_calls (t : list Event) : list (Z * Z) :=
  flat_map (fun e => match e with CallPage k v => [(k, v)] | _ => [] end) t.

(** The store after a block has been replaced. *)
Definition with_block {B : Type} (s : Store B) (r : Ref) (b : B) : Store B :=
  mkStore (<[r := b]> (blocks s)) (memReadMap s) (memWriteMap s).

(** A store in which no page is bound yet. *)
Definition unmapped {B : Type} : Store B :=
  mkStore ∅ (replicate 64 None) (replicate 64 None).

(** All 64 pages, for reading and for writing, bound to one block. *)
Definition flat {B : Type} (b : B) : Store B :=
  mkStore {[ 0%nat := b ]} (replicate 64 (Some 0%nat)) (replicate 64 (Some 0%nat)).

(** One block bound as page 0, for reading and for writing. *)
Definition page0 {B : Type} (b : B) : Store B :=
  mkStore {[ 0%nat := b ]} [Some 0%nat] [Some 0%nat].

(** All 64 pages bound to block 0, with a second block 1 at hand for the
    mapper to switch in. *)
Definition two_banks {B : Type} (b0 b1 : B) : Store B :=
  mkStore {[ 0%nat := b0; 1%nat := b1 ]}
          (replicate 64 (Some 0%nat)) (replicate 64 (Some 0%nat)).


(** Two pages bound to two different blocks: the last byte of page 0 is
    [0x34], the first byte of page 1 is [0x12]. *)
Definition two_pages_dv : Store (list byte) :=
  mkStore {[ 0%nat := <[1023%nat := x34]> (zero_bytes 1024);
             1%nat := <[0%nat := x12]> (zero_bytes 1024) ]}
          [Some 0%nat; Some 1%nat] [Some 0%nat; Some 1%nat].

Definition two_pages_arr : Store (gmap Z JsVal) :=
  mkStore {[ 0%nat := {[ 1023 := Num 0x34 ]}; 1%nat := {[ 0 := Num 0x12 ]} ]}
          [Some 0%nat; Some 1%nat] [Some 0%nat; Some 1%nat].

(** The page-table invariant: the read map has 64 entries and every page is
    bound to a present block that is [full]. *)
Definition page_table_ok {B : Type} (full : B -> Prop) (s : Store B) : Prop :=
  length (memReadMap s) = 64%nat /\
  forall p, 0 <= p < 64 ->
    exists r b, resolve (blocks s) (memReadMap s) p = Some (r, b) /\ full b.

(** A [DataView] that covers a whole page. *)
Definition covers_page (d : list byte) : Prop := 1024 <= DataViewImpl.byteLength d.

(** What the [DEBUG] block reports for [address] on the map [map]. *)
Definition debug_report (h : gmap Ref (list byte)) (map : list (option Ref))
    (address : Z) : list Event :=
  if DataViewImpl.debug_fault h map address
  then [ConsoleError address (js_shr address 10) (js_and address 0x3FF); Debugger]
  else [].



(** The textbook [memmove] inside one buffer: [len] bytes starting at
    [srcPos], as they were before the move, land at [destPos]. *)
Definition memmove (buf : list byte) (srcPos destPos len : nat) : list byte :=
  take destPos buf ++ take len (drop srcPos buf) ++ drop (destPos + len) buf.

(** An overlapping move to the right inside one buffer. *)
Definition bytes_1_to_8 : list byte := [x01; x02; x03; x04; x05; x06; x07; x08].

(** A byte buffer and an array hold the same memory contents when every byte
    of the buffer is the array element at that index, read as the accessors
    read it (masked to 8 bits, a missing element as 0). *)
Definition same_contents (d : list byte) (arr : gmap Z JsVal) : Prop :=
  forall (i : nat) (b : byte),
    d !! i = Some b -> val_and (ArrayImpl.get arr (Z.of_nat i)) 0xFF = Z_of_byte b.

(** Two stores, one per strategy, with the same page bindings and the same
    contents block by block. *)
Definition same_memory (sd : Store (list byte)) (sa : Store (gmap Z JsVal)) : Prop :=
  memReadMap sd = memReadMap sa /\
  memWriteMap sd = memWriteMap sa /\
  forall r : Ref,
    match blocks sd !! r, blocks sa !! r with
    | Some d, Some arr => same_contents d arr
    | None, None => True
    | _, _ => False
    end.

(** The mapped domain: the page of [a] is bound in [map] to a block that
    covers the offset of [a]. *)
Definition mapped (h : gmap Ref (list byte)) (map : list (option Ref)) (a : Z) : Prop :=
  exists r d, resolve h map (js_shr a 10) = Some (r, d) /\
              js_and a 0x3FF < DataViewImpl.byteLength d.

(** The paging handlers of the two builds do the same thing. *)
Definition handlers_agree (pd : Handler (list byte)) (pa : Handler (gmap Z JsVal)) : Prop :=
  forall k v sd sa,
    same_memory sd sa ->
    same_memory (pd k v sd).1 (pa k v sa).1 /\ (pd k v sd).2 = (pa k v sa).2.

(** A sequence of writes [(address, value)], stopping at the first one that
    throws. *)
Fixpoint dv_writes (D : bool) (page : Handler (list byte)) (ws : list (Z * Z))
    (s : Store (list byte)) : Store (list byte) * result unit :=
  match ws with
  | [] => (s, Ok tt)
  | (a, v) :: rest =>
      let o := DataViewImpl.writeMem D page a v s in
      match value o with
      | Ok _ => dv_writes D page rest (final o)
      | Throw e => (final o, Throw e)
      end
  end.

Fixpoint arr_writes (page : Handler (gmap Z JsVal)) (ws : list (Z * Z))
    (s : Store (gmap Z JsVal)) : Store (gmap Z JsVal) * result unit :=
  match ws with
  | [] => (s, Ok tt)
  | (a, v) :: rest =>
      let o := ArrayImpl.writeMem page a v s in
      match value o with
      | Ok _ => arr_writes page rest (final o)
      | Throw e => (final o, Throw e)
      end
  end.

(** ** Allocation of memory blocks: [JSSMS.Utils.Array]

    [new] creates an object distinct from every live one: the block gets a
    reference that is not in the heap yet. *)
Definition alloc {B : Type} (h : gmap Ref B) (b : B) : Ref * gmap Ref B :=
  let r := fresh (dom h) in (r, <[r := b]> h).

Module DataViewAlloc.

(** [function(length) { if (!length) { length = 0; }
                        return new DataView(new ArrayBuffer(length)); }].
    The argument is optional ([None] when omitted).  [new ArrayBuffer] refuses
    with a [RangeError] a negative length and one it cannot allocate: [limit]
    is the largest buffer the platform grants. *)
Definition Array (limit : Z) (length : option Z) (h : gmap Ref (list byte))
    : result (Ref * gmap Ref (list byte)) :=
  let length := match length with
                | None => 0
                | Some z => if z =? 0 then 0 else z
                end in
  if (length <? 0) || (limit <? length) then Throw RangeError
  else Ok (alloc h (zero_bytes (Z.to_nat length))).

End DataViewAlloc.

Module ArrayAlloc.

(** [Array] itself: [Array(length)] is an array without elements (its
    [length] property, which no accessor reads, is not part of the model);
    a length that is not an unsigned 32-bit integer is a [RangeError]. *)
Definition Array (length : option Z) (h : gmap Ref (gmap Z JsVal))
    : result (Ref * gmap Ref (gmap Z JsVal)) :=
  match length with
  | None => Ok (alloc h ∅)
  | Some z =>
      if (z <? 0) || (2 ^ 32 - 1 <? z) then Throw RangeError
      else Ok (alloc h ∅)
  end.

End ArrayAlloc.

(** ** [toHex]

    Strings are lists of characters.  [dec] is an integral number. *)

(** The digit of [d] in [0, 15] as [toString(16)] writes it (lower case). *)
Definition hex_digit (d : Z) : ascii :=
  if d <? 10 then ascii_of_nat (48 + Z.to_nat d) else ascii_of_nat (87 + Z.to_nat d).

(** The digits of [n >= 0] in base 16, most significant first, put in front
    of [acc]; one unit of [fuel] per digit. *)
Fixpoint digits16 (fuel : nat) (n : Z) (acc : list ascii) : list ascii :=
  match fuel with
  | O => acc
  | S fuel' =>
      let acc' := hex_digit (n mod 16) :: acc in
      if n <? 16 then acc' else digits16 fuel' (n / 16) acc'
  end.

(** [(dec).toString(16)] *)
Definition toString16 (dec : Z) : list ascii :=
  if dec <? 0
  then "-"%char :: digits16 (S (Z.to_nat (Z.log2 (- dec)))) (- dec) []
  else digits16 (S (Z.to_nat (Z.log2 dec))) dec [].

(** [toUpperCase] on one character of the ASCII range. *)
Definition upper_char (c : ascii) : ascii :=
  let n := nat_of_ascii c in
  if (97 <=? n)%nat && (n <=? 122)%nat then ascii_of_nat (n - 32) else c.

Definition toUpperCase (s : list ascii) : list ascii := map upper_char s.

Definition toHex (dec : Z) : list ascii :=
  let hex := toUpperCase (toString16 dec) in
  let hex := if (length hex mod 2 =? 1)%nat then "0"%char :: hex else hex in
  "0"%char :: "x"%char :: hex.

(** The value of an upper-case hexadecimal digit. *)
Definition hex_digit_value (c : ascii) : option Z :=
  let n := nat_of_ascii c in
  if (48 <=? n)%nat && (n <=? 57)%nat then Some (Z.of_nat n - 48)
  else if (65 <=? n)%nat && (n <=? 70)%nat then Some (Z.of_nat n - 55)
  else None.

(** Reading a string of upper-case hexadecimal digits, starting from [v]. *)
Fixpoint parse_hex_from (v : Z) (s : list ascii) : option Z :=
  match s with
  | [] => Some v
  | c :: rest =>
      match hex_digit_value c with
      | Some d => parse_hex_from (16 * v + d) rest
      | None => None
      end
  end.

Definition parse_hex (s : list ascii) : option Z :=
  match s with
  | [] => None
  | _ => parse_hex_from 0 s
  end.

(** ** [getPrefix]

    An object is seen through the set of the property names [in] finds on it;
    [None] stands for [undefined] (or [null]), and for the result [false]. *)
Section GetPrefix.
Variable document : gset string.

(** [arr.some(function(prop) { if (prop in obj) { prefix = prop; return true; }
                               return false; })]
    [some] stops at the first callback that returns [true]. *)
Fixpoint some_prefix (arr : list string) (obj : gset string) (prefix : option string)
    : option string :=
  match arr with
  | [] => prefix
  | prop :: rest =>
      if decide (prop ∈ obj) then Some prop
      else some_prefix rest obj prefix
  end.

Definition getPrefix (arr : list string) (obj : option (gset string)) : option string :=
  let prefix := None in
  let obj := match obj with
             | None => document
             | Some o => o
             end in
  some_prefix arr obj prefix.
End GetPrefix.

(** ** Further definitions used to state properties *)

(** An array holding numbers far outside the byte range. *)
Definition wild_array : gmap Z JsVal := {[ 0 := Num (-1); 1 := Num 0x12345 ]}.

(** Two heaps of byte buffers with the same live blocks of the same sizes. *)
Definition same_sizes (h h' : gmap Ref (list byte)) : Prop :=
  forall r, length <$> h' !! r = length <$> h !! r.



(** * Arithmetic of the bit operators *)

Lemma toInt32_small (z : Z) : - 2 ^ 31 <= z < 2 ^ 31 -> toInt32 z = z.
Proof.
  intros Hz. unfold toInt32.
  rewrite Z.mod_small by lia. lia.
Qed.

Lemma toInt32_mod_256 (z : Z) : toInt32 z mod 256 = z mod 256.
Proof.
  unfold toInt32.
  rewrite (Z.mod_eq (z + 2 ^ 31) (2 ^ 32)) by lia.
  set (q := (z + 2 ^ 31) / 2 ^ 32).
  replace (z + 2 ^ 31 - 2 ^ 32 * q - 2 ^ 31) with (z + (- (2 ^ 24) * q) * 256) by lia.
  apply Z_mod_plus_full.
Qed.

Lemma land_255 (z : Z) : Z.land z 255 = z mod 256.
Proof. change 255 with (Z.ones 8). rewrite Z.land_ones by lia. reflexivity. Qed.

Lemma js_shr_10 (a : Z) : 0 <= a < 2 ^ 31 -> js_shr a 10 = a / 1024.
Proof.
  intros Ha. unfold js_shr. rewrite toInt32_small by lia.
  change (10 mod 32) with 10. rewrite Z.shiftr_div_pow2 by lia. reflexivity.
Qed.

Lemma js_and_3FF (a : Z) : 0 <= a < 2 ^ 31 -> js_and a 0x3FF = a mod 1024.
Proof.
  intros Ha. unfold js_and. rewrite !toInt32_small by lia.
  change 0x3FF with (Z.ones 10). rewrite Z.land_ones by lia. reflexivity.
Qed.

Lemma js_and_3 (a : Z) : 0 <= a < 2 ^ 31 -> js_and a 3 = a mod 4.
Proof.
  intros Ha. unfold js_and. rewrite !toInt32_small by lia.
  change 3 with (Z.ones 2). rewrite Z.land_ones by lia. reflexivity.
Qed.

Lemma val_and_num (v : Z) : val_and (Num v) 0xFF = v mod 256.
Proof.
  unfold val_and, val_toInt32. rewrite (toInt32_small 0xFF) by lia.
  rewrite land_255. apply toInt32_mod_256.
Qed.

Lemma val_and_undefined : val_and Undefined 0xFF = 0.
Proof. reflexivity. Qed.

Lemma val_and_range (v : JsVal) : 0 <= val_and v 0xFF < 256.
Proof.
  unfold val_and. rewrite (toInt32_small 0xFF) by lia. rewrite land_255.
  apply Z.mod_pos_bound. lia.
Qed.

(** Composing a word from two bytes with [|] and [<<] is the little-endian
    sum. *)
Lemma lor_shiftl_8 (lo hi : Z) :
  0 <= lo < 256 -> 0 <= hi -> Z.lor lo (Z.shiftl hi 8) = lo + 256 * hi.
Proof.
  intros Hlo Hhi.
  assert (Hdisj : Z.land lo (Z.shiftl hi 8) = 0).
  { apply Z.bits_inj'. intros n Hn.
    rewrite Z.land_spec, Z.bits_0.
    destruct (Z.lt_ge_cases n 8) as [Hlt | Hge].
    - rewrite (Z.shiftl_spec_low hi 8 n) by lia. apply andb_false_r.
    - replace lo with (lo mod 2 ^ 8) by (apply Z.mod_small; lia).
      rewrite Z.mod_pow2_bits_high by lia. reflexivity. }
  rewrite <- Z.lxor_lor by exact Hdisj.
  rewrite <- Z.add_nocarry_lxor by exact Hdisj.
  rewrite Z.shiftl_mul_pow2 by lia. lia.
Qed.

Lemma js_word (lo hi : Z) :
  0 <= lo < 256 -> 0 <= hi < 256 -> js_or lo (js_shl hi 8) = lo + 256 * hi.
Proof.
  intros Hlo Hhi. unfold js_or, js_shl.
  change (8 mod 32) with 8.
  rewrite (toInt32_small hi), (toInt32_small lo) by lia.
  assert (Hs : 0 <= Z.shiftl hi 8 < 2 ^ 16)
    by (rewrite Z.shiftl_mul_pow2 by lia; lia).
  rewrite !(toInt32_small (Z.shiftl hi 8)) by lia.
  apply lor_shiftl_8; lia.
Qed.

(** * Bytes *)

Lemma Z_of_byte_range (b : byte) : 0 <= Z_of_byte b < 256.
Proof.
  unfold Z_of_byte. pose proof (Byte.to_N_bounded b). lia.
Qed.

Lemma Z_of_byte_of_Z (z : Z) : Z_of_byte (byte_of_Z z) = z mod 256.
Proof.
  unfold Z_of_byte, byte_of_Z.
  assert (Hr : 0 <= z mod 256 < 256) by (apply Z.mod_pos_bound; lia).
  destruct (Byte.of_N (Z.to_N (z mod 256))) as [b|] eqn:E.
  - apply Byte.to_of_N in E. rewrite E. lia.
  - apply Byte.of_N_None_iff in E. lia.
Qed.




(** * Sequencing *)

Section MonadFacts.
Context {B : Type}.

Lemma bind_ok {A C : Type} (m : M B A) (f : A -> M B C) (s : Store B) (a : A) :
  value (m s) = Ok a ->
  bind m f s =
    mkOutcome (trace (m s) ++ trace (f a (final (m s))))
              (final (f a (final (m s)))) (value (f a (final (m s)))).
Proof. intros H. unfold bind. rewrite H. reflexivity. Qed.

Lemma bind_throw {A C : Type} (m : M B A) (f : A -> M B C) (s : Store B) (e : JsError) :
  value (m s) = Throw e ->
  bind m f s = mkOutcome (trace (m s)) (final (m s)) (Throw e).
Proof. intros H. unfold bind. rewrite H. reflexivity. Qed.

Lemma js_index_nonneg {A : Type} (l : list A) (i : Z) :
  0 <= i -> js_index l i = l !! Z.to_nat i.
Proof. intros Hi. unfold js_index. destruct (i <? 0) eqn:E; [lia | reflexivity]. Qed.

Lemma js_index_beyond {A : Type} (l : list A) (i : Z) :
  Z.of_nat (length l) <= i -> js_index l i = None.
Proof.
  intros Hi. unfold js_index. destruct (i <? 0); [reflexivity |].
  apply lookup_ge_None. lia.
Qed.

Lemma resolve_beyond (h : gmap Ref B) (map : list (option Ref)) (i : Z) :
  Z.of_nat (length map) <= i -> resolve h map i = None.
Proof. intros Hi. unfold resolve. rewrite js_index_beyond by exact Hi. reflexivity. Qed.
End MonadFacts.

(** * Facts about the [DataView] variant *)

Lemma dv_getUint8_range (d : list byte) (i x : Z) :
  DataViewImpl.getUint8 d i = Ok x -> 0 <= x < 256.
Proof.
  unfold DataViewImpl.getUint8. destruct ((i <? 0) || (DataViewImpl.byteLength d <? i + 1)); [discriminate |].
  destruct (d !! Z.to_nat i) as [b|]; [| discriminate].
  intros [= <-]. apply Z_of_byte_range.
Qed.

Lemma dv_getUint8_lookup (d : list byte) (i : Z) :
  0 <= i ->
  DataViewImpl.getUint8 d i = match d !! Z.to_nat i with
                 | Some b => Ok (Z_of_byte b)
                 | None => Throw RangeError
                 end.
Proof.
  intros Hi. unfold DataViewImpl.getUint8, DataViewImpl.byteLength.
  destruct (d !! Z.to_nat i) as [b|] eqn:E.
  - apply lookup_lt_Some in E.
    destruct (i <? 0) eqn:E1; [lia |].
    destruct (Z.of_nat (length d) <? i + 1) eqn:E2; [lia | reflexivity].
  - destruct ((i <? 0) || _); reflexivity.
Qed.

Lemma dv_getUint16_lookup (d : list byte) (i : Z) :
  0 <= i ->
  DataViewImpl.getUint16 d i true =
    match d !! Z.to_nat i, d !! Z.to_nat (i + 1) with
    | Some b0, Some b1 => Ok (Z_of_byte b0 + 256 * Z_of_byte b1)
    | _, _ => Throw RangeError
    end.
Proof.
  intros Hi. unfold DataViewImpl.getUint16, DataViewImpl.byteLength.
  destruct (i <? 0) eqn:E1; [lia |]. simpl.
  destruct (Z.of_nat (length d) <? i + 2) eqn:E2.
  - assert (Hn : d !! Z.to_nat (i + 1) = None) by (apply lookup_ge_None; lia).
    rewrite Hn. destruct (d !! Z.to_nat i); reflexivity.
  - reflexivity.
Qed.

Lemma dv_debug_check_value (D : bool) (map : Store (list byte) -> list (option Ref))
    (a : Z) (s : Store (list byte)) :
  value (DataViewImpl.debug_check D map a s) = Ok tt /\ final (DataViewImpl.debug_check D map a s) = s.
Proof.
  unfold DataViewImpl.debug_check, bind, get_store. simpl.
  destruct (D && DataViewImpl.debug_fault (blocks s) (map s) a); simpl; auto.
Qed.

Lemma dv_debug_check_trace (D : bool) (map : Store (list byte) -> list (option Ref))
    (a : Z) (s : Store (list byte)) :
  trace (DataViewImpl.debug_check D map a s) =
    if D && DataViewImpl.debug_fault (blocks s) (map s) a
    then [ConsoleError a (js_shr a 10) (js_and a 0x3FF); Debugger]
    else [].
Proof.
  unfold DataViewImpl.debug_check, bind, get_store. simpl.
  destruct (D && DataViewImpl.debug_fault (blocks s) (map s) a); reflexivity.
Qed.

(** After the [DEBUG] block the accessor goes on from the same store. *)
Lemma dv_after_debug {A : Type} (D : bool) (map : Store (list byte) -> list (option Ref))
    (a : Z) (k : M (list byte) A) (s : Store (list byte)) :
  (run! DataViewImpl.debug_check D map a in k) s =
    mkOutcome (trace (DataViewImpl.debug_check D map a s) ++ trace (k s)) (final (k s)) (value (k s)).
Proof.
  destruct (dv_debug_check_value D map a s) as [Hv Hf].
  rewrite (bind_ok _ _ s tt Hv). rewrite Hf. reflexivity.
Qed.

Lemma dv_load_uint8_final (p o : Z) (s : Store (list byte)) :
  final (DataViewImpl.load_uint8 p o s) = s /\ trace (DataViewImpl.load_uint8 p o s) = [].
Proof.
  unfold DataViewImpl.load_uint8, bind, get_store. simpl.
  destruct (resolve _ _ _) as [[r d]|]; simpl; auto.
  destruct (DataViewImpl.getUint8 d o); simpl; auto.
Qed.

Lemma dv_load_uint8_value (p o : Z) (s : Store (list byte)) :
  value (DataViewImpl.load_uint8 p o s) =
    match resolve (blocks s) (memReadMap s) p with
    | None => Throw TypeError
    | Some (_, d) => DataViewImpl.getUint8 d o
    end.
Proof.
  unfold DataViewImpl.load_uint8, bind, get_store. simpl.
  destruct (resolve _ _ _) as [[r d]|]; simpl; auto.
  destruct (DataViewImpl.getUint8 d o); reflexivity.
Qed.

Lemma dv_load_uint16_value (p o : Z) (s : Store (list byte)) :
  value (DataViewImpl.load_uint16 p o s) =
    match resolve (blocks s) (memReadMap s) p with
    | None => Throw TypeError
    | Some (_, d) => DataViewImpl.getUint16 d o true
    end.
Proof.
  unfold DataViewImpl.load_uint16, bind, get_store, LITTLE_ENDIAN. simpl.
  destruct (resolve _ _ _) as [[r d]|]; simpl; auto.
  destruct (DataViewImpl.getUint16 d o true); reflexivity.
Qed.

Lemma dv_load_uint8_range (p o x : Z) (s : Store (list byte)) :
  value (DataViewImpl.load_uint8 p o s) = Ok x -> 0 <= x < 256.
Proof.
  rewrite dv_load_uint8_value. destruct (resolve _ _ _) as [[r d]|]; [| discriminate].
  apply dv_getUint8_range.
Qed.

Lemma dv_readMem_value (D : bool) (a : Z) (s : Store (list byte)) :
  value (DataViewImpl.readMem D a s) = value (DataViewImpl.load_uint8 (js_shr a 10) (js_and a 0x3FF) s).
Proof. unfold DataViewImpl.readMem. rewrite dv_after_debug. reflexivity. Qed.

Lemma dv_readMem_final (D : bool) (a : Z) (s : Store (list byte)) :
  final (DataViewImpl.readMem D a s) = s.
Proof. unfold DataViewImpl.readMem. rewrite dv_after_debug. simpl. apply dv_load_uint8_final. Qed.

(** The two-byte path of [DataViewImpl.readMemWord]. *)
Lemma dv_split_read_value (a : Z) (s : Store (list byte)) :
  value ((let! lo := DataViewImpl.load_uint8 (js_shr a 10) (js_and a 0x3FF) in
          let! hi := DataViewImpl.load_uint8 (js_shr (a + 1) 10) (js_and (a + 1) 0x3FF) in
          ret (js_or lo (js_shl hi 8))) s) =
    word_of (value (DataViewImpl.load_uint8 (js_shr a 10) (js_and a 0x3FF) s))
            (value (DataViewImpl.load_uint8 (js_shr (a + 1) 10) (js_and (a + 1) 0x3FF) s)).
Proof.
  destruct (value (DataViewImpl.load_uint8 (js_shr a 10) (js_and a 0x3FF) s)) as [lo | e] eqn:Elo.
  - rewrite (bind_ok _ _ s lo Elo). cbn [value].
    destruct (dv_load_uint8_final (js_shr a 10) (js_and a 0x3FF) s) as [-> _].
    destruct (value (DataViewImpl.load_uint8 (js_shr (a + 1) 10) (js_and (a + 1) 0x3FF) s))
      as [hi | e] eqn:Ehi.
    + rewrite (bind_ok _ _ s hi Ehi). cbn [value ret word_of].
      apply dv_load_uint8_range in Elo, Ehi.
      rewrite js_word by lia. rewrite lor_shiftl_8 by lia. reflexivity.
    + rewrite (bind_throw _ _ s e Ehi). reflexivity.
  - rewrite (bind_throw _ _ s e Elo). reflexivity.
Qed.

(** * Facts about the plain-array variant *)

Lemma arr_load_elem_final (p o : Z) (s : Store (gmap Z JsVal)) :
  final (ArrayImpl.load_elem p o s) = s /\ trace (ArrayImpl.load_elem p o s) = [].
Proof.
  unfold ArrayImpl.load_elem, bind, get_store. simpl.
  destruct (resolve _ _ _) as [[r d]|]; simpl; auto.
Qed.

Lemma arr_load_elem_value (p o : Z) (s : Store (gmap Z JsVal)) :
  value (ArrayImpl.load_elem p o s) =
    match resolve (blocks s) (memReadMap s) p with
    | None => Throw TypeError
    | Some (_, arr) => Ok (val_and (ArrayImpl.get arr o) 0xFF)
    end.
Proof.
  unfold ArrayImpl.load_elem, bind, get_store. simpl.
  destruct (resolve _ _ _) as [[r d]|]; reflexivity.
Qed.

Lemma arr_load_elem_range (p o x : Z) (s : Store (gmap Z JsVal)) :
  value (ArrayImpl.load_elem p o s) = Ok x -> 0 <= x < 256.
Proof.
  rewrite arr_load_elem_value. destruct (resolve _ _ _) as [[r d]|]; [| discriminate].
  intros [= <-]. apply val_and_range.
Qed.

Lemma arr_readMemWord_value (a : Z) (s : Store (gmap Z JsVal)) :
  value (ArrayImpl.readMemWord a s) =
    word_of (value (ArrayImpl.readMem a s)) (value (ArrayImpl.readMem (a + 1) s)).
Proof.
  unfold ArrayImpl.readMemWord, ArrayImpl.readMem.
  destruct (value (ArrayImpl.load_elem (js_shr a 10) (js_and a 0x3FF) s)) as [lo | e] eqn:Elo.
  - rewrite (bind_ok _ _ s lo Elo). cbn [value].
    destruct (arr_load_elem_final (js_shr a 10) (js_and a 0x3FF) s) as [-> _].
    destruct (value (ArrayImpl.load_elem (js_shr (a + 1) 10) (js_and (a + 1) 0x3FF) s))
      as [hi | e] eqn:Ehi.
    + rewrite (bind_ok _ _ s hi Ehi). cbn [value ret word_of].
      apply arr_load_elem_range in Elo, Ehi.
      rewrite js_word by lia. rewrite lor_shiftl_8 by lia. reflexivity.
    + rewrite (bind_throw _ _ s e Ehi). reflexivity.
  - rewrite (bind_throw _ _ s e Elo). reflexivity.
Qed.

(** * Address translation *)

Lemma page_of_address (a : Z) :
  0 <= a <= 0xFFFF -> js_shr a 10 = Z.shiftr a 10 /\ 0 <= js_shr a 10 <= 63.
Proof.
  intros Ha. rewrite js_shr_10 by lia.
  rewrite Z.shiftr_div_pow2 by lia. change (2 ^ 10) with 1024.
  split; [reflexivity |].
  split; [apply Z.div_pos; lia |].
  assert (a / 1024 < 64) by (apply Z.div_lt_upper_bound; lia). lia.
Qed.

Lemma offset_of_address (a : Z) :
  0 <= a <= 0xFFFF -> js_and a 0x3FF = Z.land a 0x3FF /\ 0 <= js_and a 0x3FF <= 1023.
Proof.
  intros Ha. rewrite js_and_3FF by lia. split.
  - change 0x3FF with (Z.ones 10). rewrite Z.land_ones by lia. reflexivity.
  - pose proof (Z.mod_pos_bound a 1024). lia.
Qed.

(** Within a page the next address has the same page and the next offset. *)
Lemma next_in_page (a : Z) :
  0 <= a <= 0xFFFF -> js_and a 0x3FF < 0x3FF ->
  js_shr (a + 1) 10 = js_shr a 10 /\ js_and (a + 1) 0x3FF = js_and a 0x3FF + 1.
Proof.
  intros Ha Ho. rewrite js_and_3FF in Ho by lia.
  rewrite !js_shr_10, !js_and_3FF by lia.
  pose proof (Z.div_mod a 1024 ltac:(lia)) as Hdm.
  pose proof (Z.mod_pos_bound a 1024 ltac:(lia)) as Hm.
  split.
  - symmetry. apply (Z.div_unique _ _ _ (a mod 1024 + 1)); lia.
  - symmetry. apply (Z.mod_unique _ _ (a / 1024)); lia.
Qed.

(** At the last byte of a page the next address opens the next page. *)
Lemma next_page (a : Z) :
  0 <= a <= 0xFFFF -> js_and a 0x3FF = 0x3FF ->
  js_shr (a + 1) 10 = js_shr a 10 + 1 /\ js_and (a + 1) 0x3FF = 0.
Proof.
  intros Ha Ho. rewrite js_and_3FF in Ho by lia.
  rewrite !js_shr_10, !js_and_3FF by lia.
  pose proof (Z.div_mod a 1024 ltac:(lia)) as Hdm.
  split.
  - symmetry. apply (Z.div_unique _ _ _ 0); lia.
  - symmetry. apply (Z.mod_unique _ _ (a / 1024 + 1)); lia.
Qed.

(** C8: address translation is total on the 16-bit domain.  For every address
    [a] in [0, 0xFFFF] the page index [address >> 10] that the accessors
    compute is [a >> 10] and lies in [0, 63], the offset [address & 0x3FF] is
    [a & 0x3FF] and lies in [0, 1023], the two recompose the address, and
    every accessor of both variants resolves through exactly that page and
    offset.  Translation is a function into [Z]: it has no failure mode. *)
Theorem translate_total (a : Z) (Ha : 0 <= a <= 0xFFFF) :
  js_shr a 10 = Z.shiftr a 10 /\ 0 <= js_shr a 10 <= 63 /\
  js_and a 0x3FF = Z.land a 0x3FF /\ 0 <= js_and a 0x3FF <= 1023 /\
  a = 1024 * js_shr a 10 + js_and a 0x3FF /\
  (forall D, DataViewImpl.readMem D a =
     (run! DataViewImpl.debug_check D memReadMap a in
      DataViewImpl.load_uint8 (Z.shiftr a 10) (Z.land a 0x3FF))) /\
  (forall D page v, DataViewImpl.writeMem D page a v =
     (run! DataViewImpl.debug_check D memWriteMap a in
      run! DataViewImpl.store_int8 (Z.shiftr a 10) (Z.land a 0x3FF) v in
      if 0xFFFC <=? a then call_page page (js_and a 3) v else ret tt)) /\
  ArrayImpl.readMem a = ArrayImpl.load_elem (Z.shiftr a 10) (Z.land a 0x3FF) /\
  (forall page v, ArrayImpl.writeMem page a v =
     (run! ArrayImpl.store_elem (Z.shiftr a 10) (Z.land a 0x3FF) v in
      if 0xFFFC <=? a then call_page page (js_and a 3) v else ret tt)).
Proof.
  destruct (page_of_address a Ha) as [Hp Hpr].
  destruct (offset_of_address a Ha) as [Ho Hor].
  repeat split; try lia; try assumption.
  - rewrite js_shr_10, js_and_3FF by lia. apply Z.div_mod. lia.
  - intros D. unfold DataViewImpl.readMem. rewrite Hp, Ho. reflexivity.
  - intros D page v. unfold DataViewImpl.writeMem. rewrite Hp, Ho. reflexivity.
  - unfold ArrayImpl.readMem. rewrite Hp, Ho. reflexivity.
  - intros page v. unfold ArrayImpl.writeMem. rewrite Hp, Ho. reflexivity.
Qed.

Lemma translate_total_witness :
  js_shr 0xFFFF 10 = 63 /\ js_and 0xFFFF 0x3FF = 1023.
Proof.
  pose proof (translate_total 0xFFFF ltac:(lia)) as (Hp & _ & Ho & _).
  rewrite Hp, Ho. split; reflexivity.
Defined.

(** * Word reads *)


(** * Writes *)

Lemma dv_store_int8_unfold (p o v : Z) (s : Store (list byte)) :
  DataViewImpl.store_int8 p o v s =
    match resolve (blocks s) (memWriteMap s) p with
    | None => mkOutcome [] s (Throw TypeError)
    | Some (r, d) =>
        match DataViewImpl.setInt8 d o v with
        | Throw e => mkOutcome [] s (Throw e)
        | Ok d' => mkOutcome [] (with_block s r d') (Ok tt)
        end
    end.
Proof.
  unfold DataViewImpl.store_int8, bind, get_store. simpl.
  destruct (resolve _ _ _) as [[r d]|]; [| reflexivity].
  destruct (DataViewImpl.setInt8 d o v); reflexivity.
Qed.

Lemma dv_writeMem_unfold (D : bool) (page : Handler (list byte)) (a v : Z)
    (s : Store (list byte)) :
  DataViewImpl.writeMem D page a v s =
    let dbg := trace (DataViewImpl.debug_check D memWriteMap a s) in
    match resolve (blocks s) (memWriteMap s) (js_shr a 10) with
    | None => mkOutcome dbg s (Throw TypeError)
    | Some (r, d) =>
        match DataViewImpl.setInt8 d (js_and a 0x3FF) v with
        | Throw e => mkOutcome dbg s (Throw e)
        | Ok d' =>
            if 0xFFFC <=? a
            then mkOutcome (dbg ++ [CallPage (js_and a 3) v])
                   (page (js_and a 3) v (with_block s r d')).1
                   (page (js_and a 3) v (with_block s r d')).2
            else mkOutcome dbg (with_block s r d') (Ok tt)
        end
    end.
Proof.
  unfold DataViewImpl.writeMem. rewrite dv_after_debug. cbn zeta.
  unfold bind at 1 2 3. rewrite dv_store_int8_unfold.
  destruct (resolve _ _ _) as [[r d]|]; cbn [value trace final].
  - destruct (DataViewImpl.setInt8 d (js_and a 0x3FF) v) as [d' | e]; cbn [value trace final].
    + destruct (0xFFFC <=? a); cbn [app].
      * unfold call_page. destruct (page (js_and a 3) v (with_block s r d')) as [s' res].
        reflexivity.
      * cbn [ret trace final value]. rewrite app_nil_r. reflexivity.
    + rewrite app_nil_r. reflexivity.
  - rewrite app_nil_r. reflexivity.
Qed.

Lemma dv_page_calls_debug (D : bool) (map : Store (list byte) -> list (option Ref))
    (a : Z) (s : Store (list byte)) :
  page_calls (trace (DataViewImpl.debug_check D map a s)) = [].
Proof.
  rewrite dv_debug_check_trace. destruct (D && _); reflexivity.
Qed.

Lemma dv_setInt8_covered (d : list byte) (i v : Z) :
  0 <= i < DataViewImpl.byteLength d ->
  DataViewImpl.setInt8 d i v = Ok (<[Z.to_nat i := byte_of_Z v]> d).
Proof.
  intros Hi. unfold DataViewImpl.setInt8.
  destruct (i <? 0) eqn:E1; [lia |].
  destruct (DataViewImpl.byteLength d <? i + 1) eqn:E2; [lia | reflexivity].
Qed.

Lemma dv_setInt8_uncovered (d : list byte) (i v : Z) :
  DataViewImpl.byteLength d <= i -> DataViewImpl.setInt8 d i v = Throw RangeError.
Proof.
  intros Hi. unfold DataViewImpl.setInt8.
  destruct (i <? 0); [reflexivity |].
  destruct (DataViewImpl.byteLength d <? i + 1) eqn:E2; [reflexivity | lia].
Qed.

Lemma arr_writeMem_unfold (page : Handler (gmap Z JsVal)) (a v : Z)
    (s : Store (gmap Z JsVal)) :
  ArrayImpl.writeMem page a v s =
    match resolve (blocks s) (memWriteMap s) (js_shr a 10) with
    | None => mkOutcome [] s (Throw TypeError)
    | Some (r, arr) =>
        let s1 := with_block s r (ArrayImpl.set arr (js_and a 0x3FF) (Num v)) in
        if 0xFFFC <=? a
        then mkOutcome [CallPage (js_and a 3) v]
               (page (js_and a 3) v s1).1 (page (js_and a 3) v s1).2
        else mkOutcome [] s1 (Ok tt)
    end.
Proof.
  unfold ArrayImpl.writeMem, ArrayImpl.store_elem, bind, get_store. cbn [value trace final].
  destruct (resolve _ _ _) as [[r arr]|]; cbn [value trace final set_blocks app].
  - destruct (0xFFFC <=? a).
    + unfold call_page, with_block.
      destruct (page (js_and a 3) v _) as [s' res]. reflexivity.
    + reflexivity.
  - reflexivity.
Qed.

Lemma js_and_mask_nonneg (a m : Z) : 0 <= m < 2 ^ 31 -> 0 <= js_and a m.
Proof.
  intros Hm. unfold js_and. rewrite (toInt32_small m) by lia.
  apply Z.land_nonneg. right. lia.
Qed.

Lemma paging_register_address (k : Z) :
  0 <= k <= 3 ->
  js_shr (0xFFFC + k) 10 = 63 /\ js_and (0xFFFC + k) 0x3FF = 1020 + k /\
  js_and (0xFFFC + k) 3 = k.
Proof.
  intros Hk. rewrite js_shr_10, js_and_3FF, js_and_3 by lia.
  split; [| split]; symmetry.
  - apply (Z.div_unique _ _ _ (1020 + k)); lia.
  - apply (Z.mod_unique _ _ 63); lia.
  - apply (Z.mod_unique _ _ 16383); lia.
Qed.

Lemma resolve_in_map {B : Type} (h : gmap Ref B) (map : list (option Ref)) (i : Z)
    (r : Ref) (b : B) :
  resolve h map i = Some (r, b) ->
  0 <= i < Z.of_nat (length map) /\ map !! Z.to_nat i = Some (Some r) /\ h !! r = Some b.
Proof.
  unfold resolve, js_index. destruct (i <? 0) eqn:E; [discriminate |].
  destruct (map !! Z.to_nat i) as [[r' |] |] eqn:El; try discriminate.
  destruct (h !! r') as [b' |] eqn:Eh; [| discriminate].
  intros [= <- <-]. apply lookup_lt_Some in El. repeat split; try lia; auto.
Qed.

Lemma debug_quiet (D : bool) (map : Store (list byte) -> list (option Ref)) (a : Z)
    (s : Store (list byte)) (r : Ref) (d : list byte) :
  resolve (blocks s) (map s) (js_shr a 10) = Some (r, d) ->
  js_and a 0x3FF < DataViewImpl.byteLength d ->
  trace (DataViewImpl.debug_check D map a s) = [].
Proof.
  intros Hres Hcov. rewrite dv_debug_check_trace.
  unfold DataViewImpl.debug_fault. rewrite Hres.
  apply resolve_in_map in Hres as (Hi & _ & _).
  destruct (Z.of_nat (length (map s)) <=? js_shr a 10) eqn:E1; [lia |].
  destruct (DataViewImpl.byteLength d <=? js_and a 0x3FF) eqn:E2; [lia |].
  rewrite andb_false_r. reflexivity.
Qed.

(** C3: for every register index [k] in {0,1,2,3} and every byte value [v],
    [writeMem (0xFFFC + k) v] on a store whose write map binds page 63 to a
    block (covering the offset, for a [DataView]) first stores [v] into that
    block and then calls the paging handler exactly once, with [(k, v)], on
    the store holding the written byte; the call's outcome is the outcome of
    the write.  For every address below [0xFFFC] the handler is never
    called.  Both variants. *)
Theorem paging_trap (k v : Z) (Hk : 0 <= k <= 3) (Hv : 0 <= v <= 255) :
  (forall D page s r d,
     resolve (blocks s) (memWriteMap s) 63 = Some (r, d) ->
     1020 + k < DataViewImpl.byteLength d ->
     let s1 := with_block s r (<[Z.to_nat (1020 + k) := byte_of_Z v]> d) in
     DataViewImpl.writeMem D page (0xFFFC + k) v s =
       mkOutcome [CallPage k v] (page k v s1).1 (page k v s1).2 /\
     Z_of_byte (byte_of_Z v) = v) /\
  (forall page s r arr,
     resolve (blocks s) (memWriteMap s) 63 = Some (r, arr) ->
     let s1 := with_block s r (<[1020 + k := Num v]> arr) in
     ArrayImpl.writeMem page (0xFFFC + k) v s =
       mkOutcome [CallPage k v] (page k v s1).1 (page k v s1).2) /\
  (forall D page a w s,
     a < 0xFFFC -> page_calls (trace (DataViewImpl.writeMem D page a w s)) = []) /\
  (forall page a w s,
     a < 0xFFFC -> page_calls (trace (ArrayImpl.writeMem page a w s)) = []).
Proof.
  destruct (paging_register_address k Hk) as (Hp & Ho & Hr).
  split; [| split; [| split]].
  - intros D page s r d Hres Hcov s1. split.
    + rewrite dv_writeMem_unfold. cbn zeta.
      rewrite Hp, Ho, Hr, Hres.
      rewrite (debug_quiet D memWriteMap (0xFFFC + k) s r d)
        by (rewrite ?Hp, ?Ho; assumption).
      rewrite dv_setInt8_covered by lia.
      destruct (0xFFFC <=? 0xFFFC + k) eqn:E; [| lia]. reflexivity.
    + rewrite Z_of_byte_of_Z. apply Z.mod_small. lia.
  - intros page s r arr Hres s1.
    rewrite arr_writeMem_unfold. rewrite Hp, Ho, Hr, Hres. cbn zeta.
    destruct (0xFFFC <=? 0xFFFC + k) eqn:E; [| lia]. reflexivity.
  - intros D page a w s Ha.
    rewrite dv_writeMem_unfold. cbn zeta.
    destruct (0xFFFC <=? a) eqn:E; [lia |].
    destruct (resolve _ _ _) as [[r d]|]; cbn [trace].
    + destruct (DataViewImpl.setInt8 d _ w); cbn [trace];
        apply dv_page_calls_debug.
    + apply dv_page_calls_debug.
  - intros page a w s Ha.
    rewrite arr_writeMem_unfold. cbn zeta.
    destruct (0xFFFC <=? a) eqn:E; [lia |].
    destruct (resolve _ _ _) as [[r d]|]; reflexivity.
Qed.

Lemma page_calls_app (t1 t2 : list Event) :
  page_calls (t1 ++ t2) = page_calls t1 ++ page_calls t2.
Proof. unfold page_calls. apply flat_map_app. Qed.

Lemma paging_trap_witness :
  trace (DataViewImpl.writeMem true page_nop 0xFFFC 1 (flat (zero_bytes 1024)))
    = [CallPage 0 1] /\
  trace (ArrayImpl.writeMem page_nop 0xFFFC 1 (flat (zero_array 1024))) = [CallPage 0 1] /\
  page_calls (trace (DataViewImpl.writeMem true page_nop 0xFFFB 1 (flat (zero_bytes 1024))))
    = [].
Proof.
  destruct (paging_trap 0 1 ltac:(lia) ltac:(lia)) as (Hdv & Harr & Hlow & _).
  split; [| split].
  - destruct (Hdv true page_nop (flat (zero_bytes 1024)) 0%nat (zero_bytes 1024)
               eq_refl ltac:(vm_compute; reflexivity)) as [H _].
    change (0xFFFC + 0) with 0xFFFC in H. rewrite H. reflexivity.
  - pose proof (Harr page_nop (flat (zero_array 1024)) 0%nat (zero_array 1024) eq_refl)
      as H.
    change (0xFFFC + 0) with 0xFFFC in H. rewrite H. reflexivity.
  - apply Hlow. lia.
Defined.

(** C2, as stated, fails: with no block bound for page 63 the store throws a
    [TypeError] and the handler is not called; with a [DataView] too short
    for the offset the store throws a [RangeError] and the handler is not
    called.  Non-debug build, both variants. *)
Lemma trap_skipped_on_failed_store :
  (value (DataViewImpl.writeMem false page_nop 0xFFFC 1 unmapped) = Throw TypeError /\
   trace (DataViewImpl.writeMem false page_nop 0xFFFC 1 unmapped) = []) /\
  (value (DataViewImpl.writeMem false page_nop 0xFFFC 1 (flat (zero_bytes 16)))
     = Throw RangeError /\
   trace (DataViewImpl.writeMem false page_nop 0xFFFC 1 (flat (zero_bytes 16))) = []) /\
  (value (ArrayImpl.writeMem page_nop 0xFFFC 1 unmapped) = Throw TypeError /\
   trace (ArrayImpl.writeMem page_nop 0xFFFC 1 unmapped) = []).
Proof. repeat split; vm_compute; reflexivity. Qed.

(** C2, amended: for every address [a >= 0xFFFC], [writeMem a v] calls the
    paging handler exactly once, with [(a & 3, v)], after the store, when the
    store succeeded; when no block is bound for the page ([TypeError]) or the
    [DataView] does not cover the offset ([RangeError]) the exception leaves
    [writeMem], the store is unchanged and the handler is not called. *)
Theorem trap_follows_store (a v : Z) (Ha : 0xFFFC <= a) :
  (forall D page s,
     let w := DataViewImpl.writeMem D page a v s in
     match resolve (blocks s) (memWriteMap s) (js_shr a 10) with
     | None => value w = Throw TypeError /\ final w = s /\ page_calls (trace w) = []
     | Some (r, d) =>
         if js_and a 0x3FF <? DataViewImpl.byteLength d
         then
           let s1 := with_block s r (<[Z.to_nat (js_and a 0x3FF) := byte_of_Z v]> d) in
           page_calls (trace w) = [(js_and a 3, v)] /\
           final w = (page (js_and a 3) v s1).1 /\ value w = (page (js_and a 3) v s1).2
         else value w = Throw RangeError /\ final w = s /\ page_calls (trace w) = []
     end) /\
  (forall page s,
     let w := ArrayImpl.writeMem page a v s in
     match resolve (blocks s) (memWriteMap s) (js_shr a 10) with
     | None => value w = Throw TypeError /\ final w = s /\ page_calls (trace w) = []
     | Some (r, arr) =>
         let s1 := with_block s r (<[js_and a 0x3FF := Num v]> arr) in
         page_calls (trace w) = [(js_and a 3, v)] /\
         final w = (page (js_and a 3) v s1).1 /\ value w = (page (js_and a 3) v s1).2
     end).
Proof.
  assert (Hle : (0xFFFC <=? a) = true) by lia.
  pose proof (js_and_mask_nonneg a 0x3FF ltac:(lia)) as Ho.
  split.
  - intros D page s w. subst w. rewrite dv_writeMem_unfold. cbn zeta.
    rewrite Hle.
    destruct (resolve _ _ _) as [[r d]|]; cbn [value final trace].
    + destruct (js_and a 0x3FF <? DataViewImpl.byteLength d) eqn:E.
      * rewrite dv_setInt8_covered by lia. cbn [value final trace].
        rewrite page_calls_app, dv_page_calls_debug. auto.
      * rewrite dv_setInt8_uncovered by lia. cbn [value final trace].
        rewrite dv_page_calls_debug. auto.
    + rewrite dv_page_calls_debug. auto.
  - intros page s w. subst w. rewrite arr_writeMem_unfold. cbn zeta.
    rewrite Hle.
    destruct (resolve _ _ _) as [[r arr]|]; cbn [value final trace]; auto.
Qed.

Lemma trap_follows_store_witness :
  value (DataViewImpl.writeMem true page_nop 0xFFFD 7 unmapped) = Throw TypeError /\
  page_calls (trace (DataViewImpl.writeMem true page_nop 0xFFFD 7 (flat (zero_bytes 1024))))
    = [(1, 7)].
Proof.
  destruct (trap_follows_store 0xFFFD 7 ltac:(lia)) as [Hdv _].
  split.
  - pose proof (Hdv true page_nop unmapped) as H.
    vm_compute in H. vm_compute. exact (proj1 H).
  - pose proof (Hdv true page_nop (flat (zero_bytes 1024))) as H.
    vm_compute in H. vm_compute. exact (proj1 H).
Defined.

(** * Write then read *)

Lemma resolve_bound {B : Type} (h : gmap Ref B) (map : list (option Ref)) (i : Z)
    (r : Ref) (b : B) :
  js_index map i = Some (Some r) -> h !! r = Some b -> resolve h map i = Some (r, b).
Proof. intros Hi Hr. unfold resolve. rewrite Hi, Hr. reflexivity. Qed.

Lemma resolve_js_index {B : Type} (h : gmap Ref B) (map : list (option Ref)) (i : Z)
    (r : Ref) (b : B) :
  resolve h map i = Some (r, b) -> js_index map i = Some (Some r) /\ h !! r = Some b.
Proof.
  unfold resolve. destruct (js_index map i) as [[r' |] |]; try discriminate.
  destruct (h !! r') as [b' |] eqn:E; [| discriminate].
  intros [= <- <-]. auto.
Qed.






(** When the handler switches another block into the read page of the paging
    registers, the read after the write sees that block: the round trip at
    [0xFFFC] and above depends on the handler leaving the page alone. *)
Example roundtrip_after_rebinding :
  value (DataViewImpl.readMem false 0xFFFC
           (final (DataViewImpl.writeMem false (page_rebind 63%nat 1%nat) 0xFFFC 0x2A
                     (two_banks (zero_bytes 1024) (zero_bytes 1024))))) = Ok 0 /\
  value (DataViewImpl.readMem false 0xFFFC
           (final (DataViewImpl.writeMem false page_nop 0xFFFC 0x2A
                     (two_banks (zero_bytes 1024) (zero_bytes 1024))))) = Ok 0x2A.
Proof. split; vm_compute; reflexivity. Qed.

Example readMemWord_across_blocks :
  value (DataViewImpl.readMemWord false 0x3FF two_pages_dv) = Ok 0x1234 /\
  value (ArrayImpl.readMemWord 0x3FF two_pages_arr) = Ok 0x1234.
Proof. split; vm_compute; reflexivity. Qed.


(** * The top of the address space *)

Lemma dv_getUint8_covered (d : list byte) (i : Z) :
  0 <= i < DataViewImpl.byteLength d ->
  exists x, DataViewImpl.getUint8 d i = Ok x /\ 0 <= x < 256.
Proof.
  intros Hi. rewrite dv_getUint8_lookup by lia.
  destruct (d !! Z.to_nat i) as [b |] eqn:E.
  - exists (Z_of_byte b). split; [reflexivity | apply Z_of_byte_range].
  - apply lookup_ge_None in E. unfold DataViewImpl.byteLength in Hi. lia.
Qed.

Lemma dv_getUint16_covered (d : list byte) (i : Z) :
  0 <= i -> i + 2 <= DataViewImpl.byteLength d ->
  exists w, DataViewImpl.getUint16 d i true = Ok w /\ 0 <= w <= 0xFFFF.
Proof.
  intros Hi Hcov. rewrite dv_getUint16_lookup by lia.
  unfold DataViewImpl.byteLength in Hcov.
  destruct (d !! Z.to_nat i) as [b0 |] eqn:E0;
    [| apply lookup_ge_None in E0; lia].
  destruct (d !! Z.to_nat (i + 1)) as [b1 |] eqn:E1;
    [| apply lookup_ge_None in E1; lia].
  exists (Z_of_byte b0 + 256 * Z_of_byte b1). split; [reflexivity |].
  pose proof (Z_of_byte_range b0). pose proof (Z_of_byte_range b1). lia.
Qed.

Lemma word_of_ok (l h : Z) :
  0 <= l < 256 -> 0 <= h < 256 ->
  exists w, word_of (Ok l) (Ok h) = Ok w /\ 0 <= w <= 0xFFFF.
Proof.
  intros Hl Hh. exists (l + 256 * h). cbn [word_of].
  rewrite lor_shiftl_8 by lia. split; [reflexivity | lia].
Qed.

Lemma word_of_throw_hi (lo : result Z) (e : JsError) :
  exists e', word_of lo (Throw e) = Throw e'.
Proof. destruct lo as [l | e0]; cbn [word_of]; eauto. Qed.

(** C10: [readMemWord 0xFFFF] is outside the safe domain.  Its page-boundary
    path resolves the high byte through page index [(0xFFFF + 1) >> 10 = 64],
    beyond a read map of 64 entries, so the call throws in both variants;
    under the page-table invariant (64 entries, every page bound to a block
    covering the page) [readMemWord] returns a 16-bit word for every address
    in [0x0000, 0xFFFE]. *)
Theorem readMemWord_top :
  js_shr (0xFFFF + 1) 10 = 64 /\
  (forall D s, (length (memReadMap s) <= 64)%nat ->
     exists e, value (DataViewImpl.readMemWord D 0xFFFF s) = Throw e) /\
  (forall s, (length (memReadMap s) <= 64)%nat ->
     exists e, value (ArrayImpl.readMemWord 0xFFFF s) = Throw e) /\
  (forall D s a, page_table_ok covers_page s -> 0 <= a <= 0xFFFE ->
     exists w, value (DataViewImpl.readMemWord D a s) = Ok w /\ 0 <= w <= 0xFFFF) /\
  (forall s a, page_table_ok (fun _ => True) s -> 0 <= a <= 0xFFFE ->
     exists w, value (ArrayImpl.readMemWord a s) = Ok w /\ 0 <= w <= 0xFFFF).
Proof.
  assert (H64 : js_shr (0xFFFF + 1) 10 = 64) by reflexivity.
  split; [exact H64 |].
  split; [| split; [| split]].
  - intros D s Hlen.
    unfold DataViewImpl.readMemWord. rewrite dv_after_debug. cbn [value].
    change (js_and 0xFFFF 0x3FF <? 0x3FF) with false. cbv iota.
    rewrite (dv_split_read_value 0xFFFF s).
    rewrite (dv_load_uint8_value (js_shr (0xFFFF + 1) 10)), H64.
    rewrite resolve_beyond by lia.
    apply word_of_throw_hi.
  - intros s Hlen. rewrite arr_readMemWord_value.
    unfold ArrayImpl.readMem at 2.
    rewrite arr_load_elem_value, H64. rewrite resolve_beyond by lia.
    apply word_of_throw_hi.
  - intros D s a [Hlen Hok] Ha.
    assert (Ha' : 0 <= a <= 0xFFFF) by lia.
    destruct (page_of_address a Ha') as [_ Hp].
    destruct (offset_of_address a Ha') as [_ Ho].
    unfold DataViewImpl.readMemWord. rewrite dv_after_debug. cbn [value].
    destruct (js_and a 0x3FF <? 0x3FF) eqn:E.
    + rewrite dv_load_uint16_value.
      destruct (Hok (js_shr a 10) ltac:(lia)) as (r & d & -> & Hfull).
      unfold covers_page in Hfull.
      apply dv_getUint16_covered; lia.
    + assert (Hlast : js_and a 0x3FF = 0x3FF) by lia.
      destruct (next_page a Ha' Hlast) as [Hp1 Ho1].
      assert (Hp1' : js_shr (a + 1) 10 <= 63).
      { rewrite js_shr_10 by lia.
        assert (H : (a + 1) / 1024 < 64) by (apply Z.div_lt_upper_bound; lia). lia. }
      rewrite (dv_split_read_value a s), !dv_load_uint8_value.
      destruct (Hok (js_shr a 10) ltac:(lia)) as (r & d & -> & Hfull).
      destruct (Hok (js_shr (a + 1) 10) ltac:(lia)) as (r1 & d1 & -> & Hfull1).
      unfold covers_page in Hfull, Hfull1.
      destruct (dv_getUint8_covered d (js_and a 0x3FF) ltac:(lia)) as (l & -> & Hl).
      destruct (dv_getUint8_covered d1 (js_and (a + 1) 0x3FF) ltac:(lia)) as (h & -> & Hh).
      apply word_of_ok; assumption.
  - intros s a [Hlen Hok] Ha.
    assert (Ha' : 0 <= a <= 0xFFFF) by lia.
    destruct (page_of_address a Ha') as [_ Hp].
    assert (Hp1 : 0 <= js_shr (a + 1) 10 <= 63).
    { rewrite js_shr_10 by lia. split; [apply Z.div_pos; lia |].
      assert (H : (a + 1) / 1024 < 64) by (apply Z.div_lt_upper_bound; lia). lia. }
    rewrite arr_readMemWord_value. unfold ArrayImpl.readMem.
    rewrite !arr_load_elem_value.
    destruct (Hok (js_shr a 10) ltac:(lia)) as (r & arr & -> & _).
    destruct (Hok (js_shr (a + 1) 10) ltac:(lia)) as (r1 & arr1 & -> & _).
    apply word_of_ok; apply val_and_range.
Qed.

Lemma flat_page_table_ok {B : Type} (full : B -> Prop) (b : B) :
  full b -> page_table_ok full (flat b).
Proof.
  intros Hb. split; [reflexivity |].
  intros p Hp. exists 0%nat, b. split; [| exact Hb].
  apply resolve_bound; [| apply lookup_singleton_eq].
  rewrite js_index_nonneg by lia. cbn [flat memReadMap].
  apply lookup_replicate_2. lia.
Qed.

Lemma readMemWord_top_witness :
  (exists e, value (DataViewImpl.readMemWord true 0xFFFF (flat (zero_bytes 1024))) = Throw e) /\
  (exists w, value (DataViewImpl.readMemWord true 0xFFFE (flat (zero_bytes 1024))) = Ok w /\
             0 <= w <= 0xFFFF).
Proof.
  destruct readMemWord_top as (_ & Htop & _ & Hok & _).
  split.
  - apply Htop. cbn [flat memReadMap]. rewrite length_replicate. lia.
  - apply Hok; [| lia].
    apply flat_page_table_ok. unfold covers_page. vm_compute. discriminate.
Defined.

(** * Debug mode *)

Lemma dv_debug_false (map : Store (list byte) -> list (option Ref)) (a : Z)
    (s : Store (list byte)) :
  trace (DataViewImpl.debug_check false map a s) = [].
Proof. rewrite dv_debug_check_trace. reflexivity. Qed.

Lemma dv_debug_true (map : Store (list byte) -> list (option Ref)) (a : Z)
    (s : Store (list byte)) :
  trace (DataViewImpl.debug_check true map a s) = debug_report (blocks s) (map s) a.
Proof. rewrite dv_debug_check_trace. reflexivity. Qed.

Lemma dv_getUint8_uncovered (d : list byte) (i : Z) :
  DataViewImpl.byteLength d <= i -> DataViewImpl.getUint8 d i = Throw RangeError.
Proof.
  intros Hi. unfold DataViewImpl.getUint8.
  destruct (i <? 0); [reflexivity |].
  destruct (DataViewImpl.byteLength d <? i + 1) eqn:E; [reflexivity | lia].
Qed.

Lemma dv_getUint16_uncovered (d : list byte) (i : Z) (le : bool) :
  DataViewImpl.byteLength d <= i -> DataViewImpl.getUint16 d i le = Throw RangeError.
Proof.
  intros Hi. unfold DataViewImpl.getUint16.
  destruct (i <? 0); [reflexivity |].
  destruct (DataViewImpl.byteLength d <? i + 2) eqn:E; [reflexivity | lia].
Qed.

Lemma dv_readMemWord_value (D : bool) (a : Z) (s : Store (list byte)) :
  value (DataViewImpl.readMemWord D a s) =
    if js_and a 0x3FF <? 0x3FF
    then value (DataViewImpl.load_uint16 (js_shr a 10) (js_and a 0x3FF) s)
    else word_of (value (DataViewImpl.load_uint8 (js_shr a 10) (js_and a 0x3FF) s))
                 (value (DataViewImpl.load_uint8 (js_shr (a + 1) 10)
                           (js_and (a + 1) 0x3FF) s)).
Proof.
  unfold DataViewImpl.readMemWord. rewrite dv_after_debug. cbn [value].
  destruct (js_and a 0x3FF <? 0x3FF); [reflexivity |].
  apply dv_split_read_value.
Qed.

(** C7, as stated, fails.  The plain-array accessors have no [DEBUG] block:
    with an empty array bound as page 0 a read at offset 5 silently returns 0
    and a write silently succeeds.  The [DataView] accessors with [DEBUG] on
    and no block bound log the address and stop in the debugger, then go on
    with the access: what is raised is the platform's [TypeError], the same
    as with [DEBUG] off. *)
Lemma debug_mode_does_not_raise :
  value (ArrayImpl.readMem 5 (page0 ∅)) = Ok 0 /\
  value (ArrayImpl.writeMem page_nop 5 1 (page0 ∅)) = Ok tt /\
  DataViewImpl.readMem true 0 unmapped =
    mkOutcome [ConsoleError 0 0 0; Debugger] unmapped (Throw TypeError) /\
  DataViewImpl.readMem false 0 unmapped = mkOutcome [] unmapped (Throw TypeError).
Proof. repeat split; vm_compute; reflexivity. Qed.

(** C7, amended: in debug mode each [DataView] accessor logs the address, page
    and offset and stops in the debugger when the page index is beyond the
    map, no block is bound for the page or the offset is not below the block's
    [byteLength], and then performs the access as without [DEBUG]: the
    returned value, the exception and the resulting store are the same in
    both modes.  An unbound page surfaces as the platform's [TypeError] and an
    uncovered offset as its [RangeError].  The plain-array accessors have no
    debug mode: an unbound page is a [TypeError], any offset of a bound array
    is read (a missing element as 0) and written without an error. *)
Theorem debug_mode_reports_only (a v : Z) (page : Handler (list byte))
    (s : Store (list byte)) (sa : Store (gmap Z JsVal)) :
  DataViewImpl.readMem true a s =
    mkOutcome (debug_report (blocks s) (memReadMap s) a
                 ++ trace (DataViewImpl.readMem false a s))
              (final (DataViewImpl.readMem false a s))
              (value (DataViewImpl.readMem false a s)) /\
  DataViewImpl.readMemWord true a s =
    mkOutcome (debug_report (blocks s) (memReadMap s) a
                 ++ trace (DataViewImpl.readMemWord false a s))
              (final (DataViewImpl.readMemWord false a s))
              (value (DataViewImpl.readMemWord false a s)) /\
  DataViewImpl.writeMem true page a v s =
    mkOutcome (debug_report (blocks s) (memWriteMap s) a
                 ++ trace (DataViewImpl.writeMem false page a v s))
              (final (DataViewImpl.writeMem false page a v s))
              (value (DataViewImpl.writeMem false page a v s)) /\
  match resolve (blocks s) (memReadMap s) (js_shr a 10) with
  | None =>
      debug_report (blocks s) (memReadMap s) a
        = [ConsoleError a (js_shr a 10) (js_and a 0x3FF); Debugger] /\
      value (DataViewImpl.readMem true a s) = Throw TypeError /\
      value (DataViewImpl.readMemWord true a s) = Throw TypeError
  | Some (_, d) =>
      if DataViewImpl.byteLength d <=? js_and a 0x3FF
      then
        debug_report (blocks s) (memReadMap s) a
          = [ConsoleError a (js_shr a 10) (js_and a 0x3FF); Debugger] /\
        value (DataViewImpl.readMem true a s) = Throw RangeError /\
        value (DataViewImpl.readMemWord true a s) = Throw RangeError
      else True
  end /\
  match resolve (blocks s) (memWriteMap s) (js_shr a 10) with
  | None =>
      debug_report (blocks s) (memWriteMap s) a
        = [ConsoleError a (js_shr a 10) (js_and a 0x3FF); Debugger] /\
      value (DataViewImpl.writeMem true page a v s) = Throw TypeError
  | Some (_, d) =>
      if DataViewImpl.byteLength d <=? js_and a 0x3FF
      then
        debug_report (blocks s) (memWriteMap s) a
          = [ConsoleError a (js_shr a 10) (js_and a 0x3FF); Debugger] /\
        value (DataViewImpl.writeMem true page a v s) = Throw RangeError
      else True
  end /\
  match resolve (blocks sa) (memReadMap sa) (js_shr a 10) with
  | None => value (ArrayImpl.readMem a sa) = Throw TypeError
  | Some (_, arr) =>
      value (ArrayImpl.readMem a sa) =
        Ok (match arr !! js_and a 0x3FF with
            | Some x => val_and x 0xFF
            | None => 0
            end)
  end /\
  match resolve (blocks sa) (memWriteMap sa) (js_shr a 10) with
  | None =>
      forall pg, value (ArrayImpl.writeMem pg a v sa) = Throw TypeError
  | Some (r, arr) =>
      final (ArrayImpl.writeMem page_nop a v sa)
        = with_block sa r (<[js_and a 0x3FF := Num v]> arr) /\
      value (ArrayImpl.writeMem page_nop a v sa) = Ok tt
  end.
Proof.
  split; [| split; [| split; [| split; [| split; [| split]]]]].
  - unfold DataViewImpl.readMem. rewrite !dv_after_debug.
    rewrite dv_debug_true, dv_debug_false. reflexivity.
  - unfold DataViewImpl.readMemWord. rewrite !dv_after_debug.
    rewrite dv_debug_true, dv_debug_false. reflexivity.
  - unfold DataViewImpl.writeMem. rewrite !dv_after_debug.
    rewrite dv_debug_true, dv_debug_false. reflexivity.
  - rewrite dv_readMem_value, dv_readMemWord_value.
    rewrite dv_load_uint16_value, !dv_load_uint8_value.
    unfold debug_report, DataViewImpl.debug_fault.
    destruct (resolve (blocks s) (memReadMap s) (js_shr a 10)) as [[r d]|].
    + destruct (DataViewImpl.byteLength d <=? js_and a 0x3FF) eqn:E; [| exact I].
      rewrite orb_true_r.
      rewrite dv_getUint8_uncovered, dv_getUint16_uncovered by lia.
      split; [reflexivity |]. split; [reflexivity |].
      destruct (js_and a 0x3FF <? 0x3FF); reflexivity.
    + rewrite orb_true_r. split; [reflexivity |]. split; [reflexivity |].
      destruct (js_and a 0x3FF <? 0x3FF); reflexivity.
  - rewrite dv_writeMem_unfold. cbn zeta.
    unfold debug_report, DataViewImpl.debug_fault.
    destruct (resolve (blocks s) (memWriteMap s) (js_shr a 10)) as [[r d]|].
    + destruct (DataViewImpl.byteLength d <=? js_and a 0x3FF) eqn:E; [| exact I].
      rewrite orb_true_r. rewrite dv_setInt8_uncovered by lia.
      split; reflexivity.
    + rewrite orb_true_r. split; reflexivity.
  - unfold ArrayImpl.readMem. rewrite arr_load_elem_value.
    destruct (resolve _ _ _) as [[r arr]|]; [| reflexivity].
    unfold ArrayImpl.get. destruct (arr !! js_and a 0x3FF); reflexivity.
  - destruct (resolve (blocks sa) (memWriteMap sa) (js_shr a 10)) as [[r arr]|] eqn:E.
    + rewrite arr_writeMem_unfold, E. cbn zeta.
      destruct (0xFFFC <=? a); split; reflexivity.
    + intros pg. rewrite arr_writeMem_unfold, E. reflexivity.
Qed.

(** * Bulk copy *)














(** The same descending loop moving to the left over an overlap reads bytes it
    has already overwritten: the guard on the direction is needed. *)
Example copy_leftward_overlap :
  DataViewImpl.copyArrayElements 6 0%nat 2 0%nat 0 5 {[ 0%nat := bytes_1_to_8 ]} =
    Some (mkCopy 5 {[ 0%nat := [x07; x06; x07; x06; x07; x06; x07; x08] ]} (Ok tt)) /\
  memmove bytes_1_to_8 2 0 5 = [x03; x04; x05; x06; x07; x06; x07; x08].
Proof. split; vm_compute; reflexivity. Qed.





(** * The two storage strategies *)

Lemma same_memory_resolve (sd : Store (list byte)) (sa : Store (gmap Z JsVal))
    (md ma : list (option Ref)) (p : Z) (r : Ref) (d : list byte) :
  same_memory sd sa -> md = ma ->
  resolve (blocks sd) md p = Some (r, d) ->
  exists arr, resolve (blocks sa) ma p = Some (r, arr) /\ same_contents d arr.
Proof.
  intros (_ & _ & Hblk) <- Hres.
  apply resolve_js_index in Hres as [Hi Hd].
  specialize (Hblk r). rewrite Hd in Hblk.
  destruct (blocks sa !! r) as [arr |] eqn:Ea; [| contradiction].
  exists arr. split; [| exact Hblk].
  apply resolve_bound; assumption.
Qed.

Lemma readMem_agree (D : bool) (sd : Store (list byte)) (sa : Store (gmap Z JsVal))
    (a : Z) :
  same_memory sd sa -> mapped (blocks sd) (memReadMap sd) a ->
  exists x, value (DataViewImpl.readMem D a sd) = Ok x /\
            value (ArrayImpl.readMem a sa) = Ok x /\ 0 <= x < 256.
Proof.
  intros Hsim (r & d & Hres & Hcov).
  pose proof (js_and_mask_nonneg a 0x3FF ltac:(lia)) as Ho.
  destruct (same_memory_resolve sd sa _ _ _ r d Hsim (proj1 Hsim) Hres)
    as (arr & Hra & Hsame).
  rewrite dv_readMem_value, dv_load_uint8_value, Hres.
  unfold ArrayImpl.readMem. rewrite arr_load_elem_value, Hra.
  rewrite dv_getUint8_lookup by lia.
  destruct (d !! Z.to_nat (js_and a 0x3FF)) as [b |] eqn:Eb.
  - exists (Z_of_byte b). split; [reflexivity |].
    rewrite <- (Hsame _ _ Eb). rewrite Z2Nat.id by lia.
    split; [reflexivity | apply val_and_range].
  - apply lookup_ge_None in Eb. unfold DataViewImpl.byteLength in Hcov. lia.
Qed.

Lemma dv_word_in_page (D : bool) (s : Store (list byte)) (a : Z) :
  0 <= a <= 0xFFFF ->
  mapped (blocks s) (memReadMap s) a -> mapped (blocks s) (memReadMap s) (a + 1) ->
  value (DataViewImpl.readMemWord D a s) =
    word_of (value (DataViewImpl.readMem D a s)) (value (DataViewImpl.readMem D (a + 1) s)).
Proof.
  intros Ha (r & d & Hres & Hcov) (r1 & d1 & Hres1 & Hcov1).
  rewrite dv_readMemWord_value, !dv_readMem_value.
  destruct (js_and a 0x3FF <? 0x3FF) eqn:E; [| reflexivity].
  destruct (next_in_page a Ha ltac:(lia)) as [Hp1 Ho1].
  pose proof (js_and_mask_nonneg a 0x3FF ltac:(lia)) as Ho.
  rewrite Hp1, Ho1 in *.
  assert (d1 = d) by congruence. subst d1.
  rewrite dv_load_uint16_value, !dv_load_uint8_value, Hres.
  rewrite dv_getUint16_lookup, !dv_getUint8_lookup by lia.
  unfold DataViewImpl.byteLength in *.
  destruct (d !! Z.to_nat (js_and a 0x3FF)) as [b0 |] eqn:E0;
    [| apply lookup_ge_None in E0; lia].
  destruct (d !! Z.to_nat (js_and a 0x3FF + 1)) as [b1 |] eqn:E1;
    [| apply lookup_ge_None in E1; lia].
  cbn [word_of].
  pose proof (Z_of_byte_range b0). pose proof (Z_of_byte_range b1).
  rewrite lor_shiftl_8 by lia. reflexivity.
Qed.

Lemma same_contents_store (d : list byte) (arr : gmap Z JsVal) (o v : Z) :
  0 <= o -> same_contents d arr ->
  same_contents (<[Z.to_nat o := byte_of_Z v]> d) (<[o := Num v]> arr).
Proof.
  intros Ho Hsame i b Hi.
  destruct (decide (i = Z.to_nat o)) as [-> | Hne].
  - assert (Hlt : (Z.to_nat o < length d)%nat).
    { apply lookup_lt_Some in Hi. rewrite length_insert in Hi. exact Hi. }
    rewrite list_lookup_insert_eq in Hi by exact Hlt.
    injection Hi as <-. rewrite Z2Nat.id by lia.
    unfold ArrayImpl.get. rewrite lookup_insert_eq.
    rewrite val_and_num, Z_of_byte_of_Z. reflexivity.
  - rewrite list_lookup_insert_ne in Hi by congruence.
    unfold ArrayImpl.get. rewrite lookup_insert_ne by lia.
    apply (Hsame i b Hi).
Qed.

Lemma same_memory_store (sd : Store (list byte)) (sa : Store (gmap Z JsVal))
    (r : Ref) (d : list byte) (arr : gmap Z JsVal) (o v : Z) :
  0 <= o -> same_memory sd sa -> same_contents d arr ->
  same_memory (with_block sd r (<[Z.to_nat o := byte_of_Z v]> d))
              (with_block sa r (<[o := Num v]> arr)).
Proof.
  intros Ho (Hr & Hw & Hblk) Hsame.
  split; [exact Hr |]. split; [exact Hw |].
  intros r'. cbn [with_block blocks].
  destruct (decide (r = r')) as [<- | Hne].
  - rewrite !lookup_insert_eq. apply same_contents_store; assumption.
  - rewrite !lookup_insert_ne by exact Hne. apply Hblk.
Qed.

(** One write keeps the two stores in step; a write that the [DataView]
    build completes is completed by the array build. *)
Lemma writeMem_agree (D : bool) (pd : Handler (list byte)) (pa : Handler (gmap Z JsVal))
    (sd : Store (list byte)) (sa : Store (gmap Z JsVal)) (a v : Z) :
  handlers_agree pd pa -> same_memory sd sa ->
  value (DataViewImpl.writeMem D pd a v sd) = Ok tt ->
  value (ArrayImpl.writeMem pa a v sa) = Ok tt /\
  same_memory (final (DataViewImpl.writeMem D pd a v sd))
              (final (ArrayImpl.writeMem pa a v sa)).
Proof.
  intros Hh Hsim. rewrite dv_writeMem_unfold, arr_writeMem_unfold. cbn zeta.
  pose proof (js_and_mask_nonneg a 0x3FF ltac:(lia)) as Ho.
  destruct (resolve (blocks sd) (memWriteMap sd) (js_shr a 10)) as [[r d] |] eqn:Hres;
    [| discriminate].
  destruct (same_memory_resolve sd sa _ _ _ r d Hsim (proj1 (proj2 Hsim)) Hres)
    as (arr & -> & Hsame).
  unfold ArrayImpl.set.
  destruct (Z.lt_ge_cases (js_and a 0x3FF) (DataViewImpl.byteLength d)) as [Hcov | Hunc].
  - rewrite dv_setInt8_covered by lia.
    pose proof (same_memory_store sd sa r d arr (js_and a 0x3FF) v Ho Hsim Hsame) as Hsim1.
    destruct (0xFFFC <=? a); cbn [value final].
    + destruct (Hh (js_and a 3) v _ _ Hsim1) as [Hs1 Hv1].
      intros Hok. rewrite <- Hv1. auto.
    + auto.
  - rewrite dv_setInt8_uncovered by lia. discriminate.
Qed.

Lemma writes_agree (D : bool) (pd : Handler (list byte)) (pa : Handler (gmap Z JsVal))
    (Hh : handlers_agree pd pa) (ws : list (Z * Z)) :
  forall (sd : Store (list byte)) (sa : Store (gmap Z JsVal)),
    same_memory sd sa ->
    (dv_writes D pd ws sd).2 = Ok tt ->
    (arr_writes pa ws sa).2 = Ok tt /\
    same_memory (dv_writes D pd ws sd).1 (arr_writes pa ws sa).1.
Proof.
  induction ws as [| [a v] rest IH]; intros sd sa Hsim Hrun.
  - split; [reflexivity | exact Hsim].
  - cbn [dv_writes arr_writes] in *.
    destruct (value (DataViewImpl.writeMem D pd a v sd)) as [[] | e] eqn:Ed;
      [| discriminate].
    destruct (writeMem_agree D pd pa sd sa a v Hh Hsim Ed) as [Ea Hsim1].
    rewrite Ea. apply IH; assumption.
Qed.

(** C4: the two storage strategies are observably the same.  Start from
    stores with the same page bindings and the same memory contents and run
    the same sequence of writes in both builds (the paging handlers agreeing,
    and the writes staying inside the mapped domain, so that the [DataView]
    build raises nothing): then the array build raises nothing either, the
    stores still hold the same memory, and [readMem] and [readMemWord] return
    the same value under either strategy at every address of the mapped
    domain. *)
Theorem strategies_agree (D : bool) (pd : Handler (list byte))
    (pa : Handler (gmap Z JsVal)) (Hh : handlers_agree pd pa)
    (sd : Store (list byte)) (sa : Store (gmap Z JsVal)) (Hsim : same_memory sd sa)
    (ws : list (Z * Z)) (Hrun : (dv_writes D pd ws sd).2 = Ok tt) :
  (arr_writes pa ws sa).2 = Ok tt /\
  same_memory (dv_writes D pd ws sd).1 (arr_writes pa ws sa).1 /\
  (forall a,
     mapped (blocks (dv_writes D pd ws sd).1) (memReadMap (dv_writes D pd ws sd).1) a ->
     value (DataViewImpl.readMem D a (dv_writes D pd ws sd).1) =
       value (ArrayImpl.readMem a (arr_writes pa ws sa).1)) /\
  (forall a,
     0 <= a <= 0xFFFF ->
     mapped (blocks (dv_writes D pd ws sd).1) (memReadMap (dv_writes D pd ws sd).1) a ->
     mapped (blocks (dv_writes D pd ws sd).1) (memReadMap (dv_writes D pd ws sd).1) (a + 1) ->
     value (DataViewImpl.readMemWord D a (dv_writes D pd ws sd).1) =
       value (ArrayImpl.readMemWord a (arr_writes pa ws sa).1)).
Proof.
  destruct (writes_agree D pd pa Hh ws sd sa Hsim Hrun) as [Hok Hsim'].
  set (fd := (dv_writes D pd ws sd).1) in *.
  set (fa := (arr_writes pa ws sa).1) in *.
  split; [exact Hok |]. split; [exact Hsim' |]. split.
  - intros a Hm.
    destruct (readMem_agree D fd fa a Hsim' Hm) as (x & -> & -> & _). reflexivity.
  - intros a Ha Hm Hm1.
    rewrite (dv_word_in_page D fd a Ha Hm Hm1), arr_readMemWord_value.
    destruct (readMem_agree D fd fa a Hsim' Hm) as (x & -> & -> & _).
    destruct (readMem_agree D fd fa (a + 1) Hsim' Hm1) as (y & -> & -> & _).
    reflexivity.
Qed.

Lemma same_contents_fresh (n : nat) : same_contents (zero_bytes n) ∅.
Proof.
  intros i b Hi. unfold zero_bytes in Hi.
  apply lookup_replicate_1 in Hi as [-> _]. reflexivity.
Qed.

Lemma same_memory_flat (d : list byte) (arr : gmap Z JsVal) :
  same_contents d arr -> same_memory (flat d) (flat arr).
Proof.
  intros Hsame. split; [reflexivity |]. split; [reflexivity |].
  intros r. cbn [flat blocks].
  destruct (decide (r = 0%nat)) as [-> | Hne].
  - rewrite !lookup_singleton_eq. exact Hsame.
  - rewrite !lookup_singleton_ne by congruence. exact I.
Qed.

Lemma handlers_agree_nop : handlers_agree page_nop page_nop.
Proof. intros k v sd sa Hsim. split; [exact Hsim | reflexivity]. Qed.

(** A fresh buffer of 1024 zero bytes against a fresh array of 1024 missing
    elements, after the same three writes. *)
Lemma strategies_agree_witness :
  value (DataViewImpl.readMemWord true 0x0002
           (dv_writes true page_nop [(3, 0x7F); (2, 0x1FF); (0xFFFC, 8)]
              (flat (zero_bytes 1024))).1) =
  value (ArrayImpl.readMemWord 0x0002
           (arr_writes page_nop [(3, 0x7F); (2, 0x1FF); (0xFFFC, 8)] (flat ∅)).1).
Proof.
  destruct (strategies_agree true page_nop page_nop handlers_agree_nop
              (flat (zero_bytes 1024)) (flat ∅)
              (same_memory_flat _ _ (same_contents_fresh 1024))
              [(3, 0x7F); (2, 0x1FF); (0xFFFC, 8)]
              ltac:(vm_compute; reflexivity)) as (_ & _ & _ & Hword).
  apply Hword; [lia | |].
  - eexists _, _. split; [vm_compute; reflexivity | vm_compute; reflexivity].
  - eexists _, _. split; [vm_compute; reflexivity | vm_compute; reflexivity].
Defined.

Example strategies_agree_value :
  value (ArrayImpl.readMemWord 0x0002
           (arr_writes page_nop [(3, 0x7F); (2, 0x1FF); (0xFFFC, 8)] (flat ∅)).1)
    = Ok 0x7FFF.
Proof. vm_compute. reflexivity. Qed.

(** * Further properties of the accessors *)

Lemma dv_load_uint16_final (p o : Z) (s : Store (list byte)) :
  final (DataViewImpl.load_uint16 p o s) = s /\ trace (DataViewImpl.load_uint16 p o s) = [].
Proof.
  unfold DataViewImpl.load_uint16, bind, get_store. simpl.
  destruct (resolve _ _ _) as [[r d]|]; simpl; auto.
  destruct (DataViewImpl.getUint16 d o LITTLE_ENDIAN); simpl; auto.
Qed.

Lemma dv_split_read_final (a : Z) (s : Store (list byte)) :
  let m := (let! lo := DataViewImpl.load_uint8 (js_shr a 10) (js_and a 0x3FF) in
            let! hi := DataViewImpl.load_uint8 (js_shr (a + 1) 10) (js_and (a + 1) 0x3FF) in
            ret (js_or lo (js_shl hi 8))) in
  final (m s) = s /\ trace (m s) = [].
Proof.
  cbn zeta.
  destruct (dv_load_uint8_final (js_shr a 10) (js_and a 0x3FF) s) as [Hf Ht].
  destruct (value (DataViewImpl.load_uint8 (js_shr a 10) (js_and a 0x3FF) s))
    as [lo | e] eqn:Elo.
  - rewrite (bind_ok _ _ s lo Elo). cbn [final trace]. rewrite Hf, Ht.
    destruct (dv_load_uint8_final (js_shr (a + 1) 10) (js_and (a + 1) 0x3FF) s)
      as [Hf1 Ht1].
    destruct (value (DataViewImpl.load_uint8 (js_shr (a + 1) 10) (js_and (a + 1) 0x3FF) s))
      as [hi | e] eqn:Ehi.
    + rewrite (bind_ok _ _ s hi Ehi). cbn [final trace ret]. rewrite Hf1, Ht1. auto.
    + rewrite (bind_throw _ _ s e Ehi). cbn [final trace]. auto.
  - rewrite (bind_throw _ _ s e Elo). cbn [final trace]. auto.
Qed.

Lemma dv_readMemWord_final (D : bool) (a : Z) (s : Store (list byte)) :
  final (DataViewImpl.readMemWord D a s) = s /\
  trace (DataViewImpl.readMemWord D a s) = trace (DataViewImpl.debug_check D memReadMap a s).
Proof.
  unfold DataViewImpl.readMemWord. rewrite dv_after_debug. cbn [final trace].
  destruct (js_and a 0x3FF <? 0x3FF).
  - destruct (dv_load_uint16_final (js_shr a 10) (js_and a 0x3FF) s) as [-> ->].
    rewrite app_nil_r. auto.
  - destruct (dv_split_read_final a s) as [Hf Ht]. cbn zeta in Hf, Ht.
    rewrite Hf, Ht, app_nil_r. auto.
Qed.

Lemma arr_readMemWord_final (a : Z) (s : Store (gmap Z JsVal)) :
  final (ArrayImpl.readMemWord a s) = s /\ trace (ArrayImpl.readMemWord a s) = [].
Proof.
  unfold ArrayImpl.readMemWord.
  destruct (arr_load_elem_final (js_shr a 10) (js_and a 0x3FF) s) as [Hf Ht].
  destruct (value (ArrayImpl.load_elem (js_shr a 10) (js_and a 0x3FF) s))
    as [lo | e] eqn:Elo.
  - rewrite (bind_ok _ _ s lo Elo). cbn [final trace]. rewrite Hf, Ht.
    destruct (arr_load_elem_final (js_shr (a + 1) 10) (js_and (a + 1) 0x3FF) s)
      as [Hf1 Ht1].
    destruct (value (ArrayImpl.load_elem (js_shr (a + 1) 10) (js_and (a + 1) 0x3FF) s))
      as [hi | e] eqn:Ehi.
    + rewrite (bind_ok _ _ s hi Ehi). cbn [final trace ret]. rewrite Hf1, Ht1. auto.
    + rewrite (bind_throw _ _ s e Ehi). cbn [final trace]. auto.
  - rewrite (bind_throw _ _ s e Elo). cbn [final trace]. auto.
Qed.

(** X1: reading never writes.  [readMem] and [readMemWord] leave the store
    (blocks and both page maps) exactly as it was and never call the paging
    handler, whether they return or throw; without [DEBUG] they log nothing
    at all.  Both variants. *)
Theorem reads_leave_the_store (D : bool) (a : Z) (s : Store (list byte))
    (sa : Store (gmap Z JsVal)) :
  (final (DataViewImpl.readMem D a s) = s /\
   page_calls (trace (DataViewImpl.readMem D a s)) = [] /\
   trace (DataViewImpl.readMem false a s) = []) /\
  (final (DataViewImpl.readMemWord D a s) = s /\
   page_calls (trace (DataViewImpl.readMemWord D a s)) = [] /\
   trace (DataViewImpl.readMemWord false a s) = []) /\
  (final (ArrayImpl.readMem a sa) = sa /\ trace (ArrayImpl.readMem a sa) = []) /\
  (final (ArrayImpl.readMemWord a sa) = sa /\ trace (ArrayImpl.readMemWord a sa) = []).
Proof.
  split; [| split; [| split]].
  - split; [apply dv_readMem_final |].
    unfold DataViewImpl.readMem. rewrite !dv_after_debug. cbn [trace].
    destruct (dv_load_uint8_final (js_shr a 10) (js_and a 0x3FF) s) as [_ ->].
    rewrite !app_nil_r. split; [apply dv_page_calls_debug | apply dv_debug_false].
  - destruct (dv_readMemWord_final D a s) as [Hf Ht].
    destruct (dv_readMemWord_final false a s) as [_ Ht'].
    split; [exact Hf |]. rewrite Ht, Ht'.
    split; [apply dv_page_calls_debug | apply dv_debug_false].
  - apply arr_load_elem_final.
  - apply arr_readMemWord_final.
Qed.

Lemma word_of_range (lo hi : result Z) (w : Z) :
  (forall l, lo = Ok l -> 0 <= l < 256) ->
  (forall h, hi = Ok h -> 0 <= h < 256) ->
  word_of lo hi = Ok w -> 0 <= w <= 0xFFFF.
Proof.
  intros Hlo Hhi. destruct lo as [l | e]; [| discriminate].
  destruct hi as [h | e]; [| discriminate].
  cbn [word_of]. specialize (Hlo l eq_refl). specialize (Hhi h eq_refl).
  rewrite lor_shiftl_8 by lia. intros [= <-]. lia.
Qed.

Lemma dv_getUint16_range (d : list byte) (i w : Z) (le : bool) :
  DataViewImpl.getUint16 d i le = Ok w -> 0 <= w <= 0xFFFF.
Proof.
  unfold DataViewImpl.getUint16.
  destruct ((i <? 0) || _); [discriminate |].
  destruct (d !! Z.to_nat i) as [b0 |]; [| discriminate].
  destruct (d !! Z.to_nat (i + 1)) as [b1 |]; [| discriminate].
  pose proof (Z_of_byte_range b0). pose proof (Z_of_byte_range b1).
  destruct le; intros [= <-]; lia.
Qed.

(** X2: what a read returns is unsigned.  Whatever the address and the
    store, a byte that [readMem] returns lies in [0, 255] and a word that
    [readMemWord] returns lies in [0, 0xFFFF]: no sign extension, although
    the array elements may hold any number.  Both variants. *)
Theorem reads_are_unsigned (D : bool) (a : Z) (s : Store (list byte))
    (sa : Store (gmap Z JsVal)) :
  (forall x, value (DataViewImpl.readMem D a s) = Ok x -> 0 <= x <= 255) /\
  (forall w, value (DataViewImpl.readMemWord D a s) = Ok w -> 0 <= w <= 0xFFFF) /\
  (forall x, value (ArrayImpl.readMem a sa) = Ok x -> 0 <= x <= 255) /\
  (forall w, value (ArrayImpl.readMemWord a sa) = Ok w -> 0 <= w <= 0xFFFF).
Proof.
  split; [| split; [| split]].
  - intros x Hx. rewrite dv_readMem_value in Hx.
    apply dv_load_uint8_range in Hx. lia.
  - intros w. rewrite dv_readMemWord_value.
    destruct (js_and a 0x3FF <? 0x3FF).
    + rewrite dv_load_uint16_value.
      destruct (resolve _ _ _) as [[r d]|]; [| discriminate].
      apply dv_getUint16_range.
    + apply word_of_range; intros ? H; apply dv_load_uint8_range in H; exact H.
  - intros x Hx. apply arr_load_elem_range in Hx. lia.
  - intros w. rewrite arr_readMemWord_value.
    apply word_of_range; intros ? H; apply arr_load_elem_range in H; exact H.
Qed.

Lemma reads_are_unsigned_witness :
  value (ArrayImpl.readMemWord 0 (page0 wild_array)) = Ok 0x45FF /\
  0 <= 0x45FF <= 0xFFFF.
Proof.
  split; [vm_compute; reflexivity |].
  apply (proj2 (proj2 (proj2 (reads_are_unsigned false 0 unmapped (page0 wild_array))))).
  vm_compute. reflexivity.
Defined.

Lemma resolve_with_block {B : Type} (s : Store B) (r : Ref) (bnew : B)
    (map : list (option Ref)) (p : Z) :
  is_Some (blocks s !! r) ->
  resolve (blocks (with_block s r bnew)) map p =
    match resolve (blocks s) map p with
    | Some (r', b') => Some (r', if decide (r' = r) then bnew else b')
    | None => None
    end.
Proof.
  intros [b0 Hb0]. unfold resolve. cbn [with_block blocks].
  destruct (js_index map p) as [[r' |] |]; try reflexivity.
  destruct (decide (r' = r)) as [-> | Hne].
  - rewrite lookup_insert_eq, Hb0. rewrite decide_True by reflexivity. reflexivity.
  - rewrite lookup_insert_ne by congruence.
    destruct (blocks s !! r') as [b' |]; [| reflexivity].
    rewrite decide_False by exact Hne. reflexivity.
Qed.

Lemma dv_write_final (D : bool) (page : Handler (list byte)) (a v : Z)
    (s : Store (list byte)) (r : Ref) (d : list byte) :
  a < 0xFFFC ->
  resolve (blocks s) (memWriteMap s) (js_shr a 10) = Some (r, d) ->
  js_and a 0x3FF < DataViewImpl.byteLength d ->
  final (DataViewImpl.writeMem D page a v s) =
    with_block s r (<[Z.to_nat (js_and a 0x3FF) := byte_of_Z v]> d) /\
  value (DataViewImpl.writeMem D page a v s) = Ok tt.
Proof.
  intros Ha Hres Hcov.
  pose proof (js_and_mask_nonneg a 0x3FF ltac:(lia)) as Ho.
  rewrite dv_writeMem_unfold. cbn zeta. rewrite Hres.
  rewrite dv_setInt8_covered by lia.
  destruct (0xFFFC <=? a) eqn:E; [lia |]. split; reflexivity.
Qed.

Lemma arr_write_final (page : Handler (gmap Z JsVal)) (a v : Z)
    (s : Store (gmap Z JsVal)) (r : Ref) (arr : gmap Z JsVal) :
  a < 0xFFFC ->
  resolve (blocks s) (memWriteMap s) (js_shr a 10) = Some (r, arr) ->
  final (ArrayImpl.writeMem page a v s) =
    with_block s r (<[js_and a 0x3FF := Num v]> arr) /\
  value (ArrayImpl.writeMem page a v s) = Ok tt.
Proof.
  intros Ha Hres. rewrite arr_writeMem_unfold, Hres. cbn zeta.
  destruct (0xFFFC <=? a) eqn:E; [lia |]. split; reflexivity.
Qed.

Lemma dv_getUint8_insert (d : list byte) (i j : Z) (x : byte) :
  0 <= i -> 0 <= j ->
  DataViewImpl.getUint8 (<[Z.to_nat i := x]> d) j =
    if decide (j = i /\ i < DataViewImpl.byteLength d) then Ok (Z_of_byte x)
    else DataViewImpl.getUint8 d j.
Proof.
  intros Hi Hj. rewrite !dv_getUint8_lookup by lia.
  unfold DataViewImpl.byteLength.
  destruct (decide (j = i /\ i < Z.of_nat (length d))) as [[-> Hlt] | Hn].
  - rewrite list_lookup_insert_eq by lia. reflexivity.
  - destruct (decide (j = i)) as [-> | Hne].
    + rewrite list_insert_ge by lia. reflexivity.
    + rewrite list_lookup_insert_ne by lia. reflexivity.
Qed.

Lemma dv_read_after_write (D : bool) (page : Handler (list byte)) (a v b : Z)
    (s : Store (list byte)) (r : Ref) (d : list byte) :
  a < 0xFFFC ->
  resolve (blocks s) (memWriteMap s) (js_shr a 10) = Some (r, d) ->
  js_and a 0x3FF < DataViewImpl.byteLength d ->
  value (DataViewImpl.readMem D b (final (DataViewImpl.writeMem D page a v s))) =
    match resolve (blocks s) (memReadMap s) (js_shr b 10) with
    | Some (r', _) =>
        if decide (r' = r /\ js_and b 0x3FF = js_and a 0x3FF) then Ok (v mod 256)
        else value (DataViewImpl.readMem D b s)
    | None => value (DataViewImpl.readMem D b s)
    end.
Proof.
  intros Ha Hres Hcov.
  pose proof (js_and_mask_nonneg a 0x3FF ltac:(lia)) as Hoa.
  pose proof (js_and_mask_nonneg b 0x3FF ltac:(lia)) as Hob.
  destruct (dv_write_final D page a v s r d Ha Hres Hcov) as [-> _].
  rewrite !dv_readMem_value, !dv_load_uint8_value.
  apply resolve_js_index in Hres as [_ Hd].
  change (memReadMap (with_block s r _)) with (memReadMap s).
  rewrite resolve_with_block by eauto.
  destruct (resolve (blocks s) (memReadMap s) (js_shr b 10)) as [[r' d'] |] eqn:Hb;
    [| reflexivity].
  destruct (decide (r' = r)) as [-> | Hne].
  - apply resolve_js_index in Hb as [_ Hd']. assert (d' = d) by congruence. subst d'.
    rewrite dv_getUint8_insert by lia. rewrite Z_of_byte_of_Z.
    destruct (decide (js_and b 0x3FF = js_and a 0x3FF /\ _)) as [[He _] | Hn];
      destruct (decide (r = r /\ js_and b 0x3FF = js_and a 0x3FF)) as [[_ He'] | Hn'];
      try reflexivity; exfalso; tauto.
  - rewrite decide_False by tauto. reflexivity.
Qed.

Lemma arr_read_after_write (page : Handler (gmap Z JsVal)) (a v b : Z)
    (s : Store (gmap Z JsVal)) (r : Ref) (arr : gmap Z JsVal) :
  a < 0xFFFC ->
  resolve (blocks s) (memWriteMap s) (js_shr a 10) = Some (r, arr) ->
  value (ArrayImpl.readMem b (final (ArrayImpl.writeMem page a v s))) =
    match resolve (blocks s) (memReadMap s) (js_shr b 10) with
    | Some (r', _) =>
        if decide (r' = r /\ js_and b 0x3FF = js_and a 0x3FF) then Ok (v mod 256)
        else value (ArrayImpl.readMem b s)
    | None => value (ArrayImpl.readMem b s)
    end.
Proof.
  intros Ha Hres.
  destruct (arr_write_final page a v s r arr Ha Hres) as [-> _].
  unfold ArrayImpl.readMem. rewrite !arr_load_elem_value.
  apply resolve_js_index in Hres as [_ Hd].
  change (memReadMap (with_block s r _)) with (memReadMap s).
  rewrite resolve_with_block by eauto.
  destruct (resolve (blocks s) (memReadMap s) (js_shr b 10)) as [[r' arr'] |] eqn:Hb;
    [| reflexivity].
  destruct (decide (r' = r)) as [-> | Hne].
  - apply resolve_js_index in Hb as [_ Hd']. assert (arr' = arr) by congruence. subst arr'.
    unfold ArrayImpl.get.
    destruct (decide (js_and b 0x3FF = js_and a 0x3FF)) as [He | Hne].
    + rewrite He, lookup_insert_eq, val_and_num.
      rewrite decide_True by tauto. reflexivity.
    + rewrite lookup_insert_ne by congruence.
      rewrite decide_False by tauto. reflexivity.
  - rewrite decide_False by tauto. reflexivity.
Qed.

(** X3: what a write changes.  After [writeMem a v] below the paging
    registers, with [v] any integer, [readMem b] returns [v mod 256] when the
    read page of [b] is bound to the block that was written and the offsets
    coincide ([b = a], or a mirror of it through another page bound to the
    same block), and returns what it returned before the write at every other
    address.  Both variants. *)
Theorem write_changes_one_byte (a v b : Z) (Ha : a < 0xFFFC) :
  (forall D page s r d,
     resolve (blocks s) (memWriteMap s) (js_shr a 10) = Some (r, d) ->
     js_and a 0x3FF < DataViewImpl.byteLength d ->
     value (DataViewImpl.readMem D b (final (DataViewImpl.writeMem D page a v s))) =
       match resolve (blocks s) (memReadMap s) (js_shr b 10) with
       | Some (r', _) =>
           if decide (r' = r /\ js_and b 0x3FF = js_and a 0x3FF) then Ok (v mod 256)
           else value (DataViewImpl.readMem D b s)
       | None => value (DataViewImpl.readMem D b s)
       end) /\
  (forall page s r arr,
     resolve (blocks s) (memWriteMap s) (js_shr a 10) = Some (r, arr) ->
     value (ArrayImpl.readMem b (final (ArrayImpl.writeMem page a v s))) =
       match resolve (blocks s) (memReadMap s) (js_shr b 10) with
       | Some (r', _) =>
           if decide (r' = r /\ js_and b 0x3FF = js_and a 0x3FF) then Ok (v mod 256)
           else value (ArrayImpl.readMem b s)
       | None => value (ArrayImpl.readMem b s)
       end).
Proof.
  split.
  - intros D page s r d Hres Hcov.
    exact (dv_read_after_write D page a v b s r d Ha Hres Hcov).
  - intros page s r arr Hres.
    exact (arr_read_after_write page a v b s r arr Ha Hres).
Qed.

Lemma write_changes_one_byte_witness :
  value (DataViewImpl.readMem true 0x0405
           (final (DataViewImpl.writeMem true page_nop 0x0005 (-1) (flat (zero_bytes 1024)))))
    = Ok 255 /\
  value (DataViewImpl.readMem true 0x0406
           (final (DataViewImpl.writeMem true page_nop 0x0005 (-1) (flat (zero_bytes 1024)))))
    = Ok 0.
Proof.
  split.
  - pose proof (proj1 (write_changes_one_byte 0x0005 (-1) 0x0405 ltac:(lia))
                  true page_nop (flat (zero_bytes 1024)) 0%nat (zero_bytes 1024)
                  ltac:(vm_compute; reflexivity) ltac:(vm_compute; reflexivity)) as H.
    vm_compute in H. vm_compute. exact H.
  - pose proof (proj1 (write_changes_one_byte 0x0005 (-1) 0x0406 ltac:(lia))
                  true page_nop (flat (zero_bytes 1024)) 0%nat (zero_bytes 1024)
                  ltac:(vm_compute; reflexivity) ltac:(vm_compute; reflexivity)) as H.
    vm_compute in H. vm_compute. exact H.
Defined.

Lemma same_sizes_refl (h : gmap Ref (list byte)) : same_sizes h h.
Proof. intros r. reflexivity. Qed.

Lemma same_sizes_trans (h1 h2 h3 : gmap Ref (list byte)) :
  same_sizes h1 h2 -> same_sizes h2 h3 -> same_sizes h1 h3.
Proof. intros H12 H23 r. rewrite (H23 r). apply H12. Qed.

Lemma same_sizes_resolve (h h' : gmap Ref (list byte)) (map : list (option Ref))
    (p : Z) (r : Ref) (d : list byte) :
  same_sizes h h' -> resolve h map p = Some (r, d) ->
  exists d', resolve h' map p = Some (r, d') /\ length d' = length d.
Proof.
  intros Hs Hres. apply resolve_js_index in Hres as [Hi Hd].
  specialize (Hs r). rewrite Hd in Hs.
  destruct (h' !! r) as [d' |] eqn:E; [| discriminate].
  exists d'. split; [apply resolve_bound; assumption |].
  cbn in Hs. congruence.
Qed.

Lemma dv_write_keeps_shape (D : bool) (page : Handler (list byte)) (a v : Z)
    (s : Store (list byte)) :
  a < 0xFFFC ->
  memReadMap (final (DataViewImpl.writeMem D page a v s)) = memReadMap s /\
  memWriteMap (final (DataViewImpl.writeMem D page a v s)) = memWriteMap s /\
  same_sizes (blocks s) (blocks (final (DataViewImpl.writeMem D page a v s))).
Proof.
  intros Ha. rewrite dv_writeMem_unfold. cbn zeta.
  destruct (0xFFFC <=? a) eqn:E; [lia |].
  destruct (resolve (blocks s) (memWriteMap s) (js_shr a 10)) as [[r d] |] eqn:Hres;
    cbn [final];
    [| split; [reflexivity | split; [reflexivity | apply same_sizes_refl]]].
  unfold DataViewImpl.setInt8.
  destruct ((js_and a 0x3FF <? 0) || _); cbn [final];
    [split; [reflexivity | split; [reflexivity | apply same_sizes_refl]] |].
  split; [reflexivity |]. split; [reflexivity |].
  apply resolve_js_index in Hres as [_ Hd].
  intros r'. cbn [with_block blocks].
  destruct (decide (r = r')) as [<- | Hne].
  - rewrite lookup_insert_eq, Hd. cbn. rewrite length_insert. reflexivity.
  - rewrite lookup_insert_ne by exact Hne. reflexivity.
Qed.

Lemma page_table_ok_sizes (s s' : Store (list byte)) :
  memReadMap s' = memReadMap s -> same_sizes (blocks s) (blocks s') ->
  page_table_ok covers_page s -> page_table_ok covers_page s'.
Proof.
  intros Hmap Hs [Hlen Hok]. split; [congruence |].
  intros p Hp. destruct (Hok p Hp) as (r & d & Hres & Hfull).
  rewrite Hmap.
  destruct (same_sizes_resolve _ _ _ _ _ _ Hs Hres) as (d' & Hres' & Hl).
  exists r, d'. split; [exact Hres' |].
  unfold covers_page, DataViewImpl.byteLength in *. lia.
Qed.

Lemma arr_write_keeps_shape (page : Handler (gmap Z JsVal)) (a v : Z)
    (s : Store (gmap Z JsVal)) :
  a < 0xFFFC ->
  memReadMap (final (ArrayImpl.writeMem page a v s)) = memReadMap s /\
  memWriteMap (final (ArrayImpl.writeMem page a v s)) = memWriteMap s /\
  dom (blocks (final (ArrayImpl.writeMem page a v s))) = dom (blocks s).
Proof.
  intros Ha. rewrite arr_writeMem_unfold.
  destruct (0xFFFC <=? a) eqn:E; [lia |].
  destruct (resolve (blocks s) (memWriteMap s) (js_shr a 10)) as [[r arr] |] eqn:Hres;
    cbn [final]; [| auto].
  split; [reflexivity |]. split; [reflexivity |].
  apply resolve_js_index in Hres as [_ Hd].
  cbn [with_block blocks]. rewrite dom_insert_L.
  assert (Hin : r ∈ dom (blocks s)) by (apply elem_of_dom; eauto).
  apply set_eq. intros x. rewrite elem_of_union, elem_of_singleton.
  split; [intros [-> | Hx]; assumption | auto].
Qed.

Lemma dv_writes_keep_shape (D : bool) (page : Handler (list byte)) (ws : list (Z * Z)) :
  forall s : Store (list byte),
    Forall (fun w => w.1 < 0xFFFC) ws ->
    memReadMap (dv_writes D page ws s).1 = memReadMap s /\
    memWriteMap (dv_writes D page ws s).1 = memWriteMap s /\
    same_sizes (blocks s) (blocks (dv_writes D page ws s).1).
Proof.
  induction ws as [| [a v] rest IH]; intros s Hall; cbn [dv_writes].
  - split; [reflexivity | split; [reflexivity | apply same_sizes_refl]].
  - apply Forall_cons in Hall as [Ha Hrest]. cbn [fst] in Ha.
    destruct (dv_write_keeps_shape D page a v s Ha) as (Hr & Hw & Hs).
    destruct (value (DataViewImpl.writeMem D page a v s)); cbn [fst]; [| auto].
    destruct (IH (final (DataViewImpl.writeMem D page a v s)) Hrest) as (Hr' & Hw' & Hs').
    split; [congruence |]. split; [congruence |].
    eapply same_sizes_trans; eassumption.
Qed.

Lemma arr_writes_keep_shape (page : Handler (gmap Z JsVal)) (ws : list (Z * Z)) :
  forall s : Store (gmap Z JsVal),
    Forall (fun w => w.1 < 0xFFFC) ws ->
    memReadMap (arr_writes page ws s).1 = memReadMap s /\
    memWriteMap (arr_writes page ws s).1 = memWriteMap s /\
    dom (blocks (arr_writes page ws s).1) = dom (blocks s).
Proof.
  induction ws as [| [a v] rest IH]; intros s Hall; cbn [arr_writes].
  - auto.
  - apply Forall_cons in Hall as [Ha Hrest]. cbn [fst] in Ha.
    destruct (arr_write_keeps_shape page a v s Ha) as (Hr & Hw & Hs).
    destruct (value (ArrayImpl.writeMem page a v s)); cbn [fst]; [| auto].
    destruct (IH (final (ArrayImpl.writeMem page a v s)) Hrest) as (Hr' & Hw' & Hs').
    split; [congruence |]. split; [congruence |]. congruence.
Qed.

(** X4: writes below the paging registers keep the page table.  Whatever
    sequence of [writeMem] calls at addresses below [0xFFFC] is run, failed
    ones included, both page maps are left as they were, no block appears or
    disappears, and no [DataView] changes its [byteLength]; so the
    page-table invariant (64 pages, each bound to a block covering its page)
    still holds afterwards. *)
Theorem writes_keep_the_page_table (ws : list (Z * Z))
    (Hlow : Forall (fun w => w.1 < 0xFFFC) ws) :
  (forall D page s,
     memReadMap (dv_writes D page ws s).1 = memReadMap s /\
     memWriteMap (dv_writes D page ws s).1 = memWriteMap s /\
     same_sizes (blocks s) (blocks (dv_writes D page ws s).1) /\
     (page_table_ok covers_page s ->
      page_table_ok covers_page (dv_writes D page ws s).1)) /\
  (forall page s,
     memReadMap (arr_writes page ws s).1 = memReadMap s /\
     memWriteMap (arr_writes page ws s).1 = memWriteMap s /\
     dom (blocks (arr_writes page ws s).1) = dom (blocks s)).
Proof.
  split.
  - intros D page s.
    destruct (dv_writes_keep_shape D page ws s Hlow) as (Hr & Hw & Hs).
    split; [exact Hr |]. split; [exact Hw |]. split; [exact Hs |].
    intros Hok. exact (page_table_ok_sizes s _ Hr Hs Hok).
  - intros page s. apply arr_writes_keep_shape. exact Hlow.
Qed.

Lemma writes_keep_the_page_table_witness :
  page_table_ok covers_page
    (dv_writes true page_nop [(0x0000, 1); (0xFFFB, 0x1FF); (-5, 3)]
       (flat (zero_bytes 1024))).1.
Proof.
  apply (proj1 (writes_keep_the_page_table [(0x0000, 1); (0xFFFB, 0x1FF); (-5, 3)]
                  ltac:(repeat constructor; cbn; lia))).
  apply flat_page_table_ok. unfold covers_page. vm_compute. discriminate.
Defined.

Lemma next_offset_differs (a : Z) :
  0 <= a <= 0xFFFF -> js_and (a + 1) 0x3FF <> js_and a 0x3FF.
Proof.
  intros Ha. destruct (offset_of_address a Ha) as [_ Ho].
  destruct (Z.eq_dec (js_and a 0x3FF) 0x3FF) as [Hlast | Hin].
  - destruct (next_page a Ha Hlast) as [_ ->]. lia.
  - destruct (next_in_page a Ha ltac:(lia)) as [_ ->]. lia.
Qed.

Lemma dv_mapped_after (s s' : Store (list byte)) (b : Z) (r : Ref) (d : list byte) :
  memReadMap s' = memReadMap s -> same_sizes (blocks s) (blocks s') ->
  js_index (memReadMap s) (js_shr b 10) = Some (Some r) -> blocks s !! r = Some d ->
  js_and b 0x3FF < DataViewImpl.byteLength d ->
  mapped (blocks s') (memReadMap s') b.
Proof.
  intros Hmap Hs Hi Hd Hcov.
  destruct (same_sizes_resolve _ _ _ _ _ _ Hs (resolve_bound _ _ _ _ _ Hi Hd))
    as (d' & Hres' & Hl).
  exists r, d'. rewrite Hmap. split; [exact Hres' |].
  unfold DataViewImpl.byteLength in *. lia.
Qed.

(** X5: a word written as two bytes is read back as a word.  For an address
    [a] with [a + 1] below the paging registers, pages bound to the same
    blocks for reading and writing (covering the offsets), and bytes [lo] and
    [hi], [writeMem a lo] then [writeMem (a+1) hi] makes [readMemWord a]
    return [lo + 256 * hi]; this holds inside a page and across a page
    boundary, whether the two pages share a block or not.  Both variants. *)
Theorem word_after_two_writes (a lo hi : Z) (Ha : 0 <= a) (Ha1 : a + 1 < 0xFFFC)
    (Hlo : 0 <= lo <= 255) (Hhi : 0 <= hi <= 255) :
  (forall D page s r d r1 d1,
     resolve (blocks s) (memWriteMap s) (js_shr a 10) = Some (r, d) ->
     js_index (memReadMap s) (js_shr a 10) = Some (Some r) ->
     js_and a 0x3FF < DataViewImpl.byteLength d ->
     resolve (blocks s) (memWriteMap s) (js_shr (a + 1) 10) = Some (r1, d1) ->
     js_index (memReadMap s) (js_shr (a + 1) 10) = Some (Some r1) ->
     js_and (a + 1) 0x3FF < DataViewImpl.byteLength d1 ->
     value (DataViewImpl.readMemWord D a
              (final (DataViewImpl.writeMem D page (a + 1) hi
                        (final (DataViewImpl.writeMem D page a lo s)))))
       = Ok (lo + 256 * hi)) /\
  (forall page s r arr r1 arr1,
     resolve (blocks s) (memWriteMap s) (js_shr a 10) = Some (r, arr) ->
     js_index (memReadMap s) (js_shr a 10) = Some (Some r) ->
     resolve (blocks s) (memWriteMap s) (js_shr (a + 1) 10) = Some (r1, arr1) ->
     js_index (memReadMap s) (js_shr (a + 1) 10) = Some (Some r1) ->
     value (ArrayImpl.readMemWord a
              (final (ArrayImpl.writeMem page (a + 1) hi
                        (final (ArrayImpl.writeMem page a lo s)))))
       = Ok (lo + 256 * hi)).
Proof.
  assert (Ha' : 0 <= a <= 0xFFFF) by lia.
  pose proof (next_offset_differs a Ha') as Hoff.
  assert (Hlo' : lo mod 256 = lo) by (apply Z.mod_small; lia).
  assert (Hhi' : hi mod 256 = hi) by (apply Z.mod_small; lia).
  split.
  - intros D page s r d r1 d1 Hw Hr Hcov Hw1 Hr1 Hcov1.
    set (s1 := final (DataViewImpl.writeMem D page a lo s)).
    set (s2 := final (DataViewImpl.writeMem D page (a + 1) hi s1)).
    destruct (dv_write_keeps_shape D page a lo s ltac:(lia)) as (HrA & HwA & HsA).
    fold s1 in HrA, HwA, HsA.
    destruct (dv_write_keeps_shape D page (a + 1) hi s1 ltac:(lia)) as (HrB & HwB & HsB).
    fold s2 in HrB, HwB, HsB.
    destruct (resolve_js_index _ _ _ _ _ Hw) as [_ Hd].
    destruct (resolve_js_index _ _ _ _ _ Hw1) as [_ Hd1].
    (* the second write resolves in [s1] to a block of the same size *)
    destruct (same_sizes_resolve _ _ _ _ _ _ HsA Hw1) as (d1' & Hw1' & Hl1).
    rewrite <- HwA in Hw1'.
    assert (Hcov1' : js_and (a + 1) 0x3FF < DataViewImpl.byteLength d1')
      by (unfold DataViewImpl.byteLength in *; lia).
    (* reads of [a] and [a+1] in [s1] *)
    destruct (same_sizes_resolve _ _ _ _ _ _ HsA (resolve_bound _ _ _ _ _ Hr Hd))
      as (dA & HresA & _).
    destruct (same_sizes_resolve _ _ _ _ _ _ HsA (resolve_bound _ _ _ _ _ Hr1 Hd1))
      as (dB & HresB & _).
    rewrite <- HrA in HresA, HresB.
    assert (Hread_a : value (DataViewImpl.readMem D a s2) = Ok lo).
    { unfold s2.
      rewrite (dv_read_after_write D page (a + 1) hi a s1 r1 d1' ltac:(lia) Hw1' Hcov1').
      rewrite HresA. rewrite decide_False by (intros [_ He]; congruence).
      unfold s1.
      rewrite (dv_read_after_write D page a lo a s r d ltac:(lia) Hw Hcov).
      rewrite (resolve_bound _ _ _ _ _ Hr Hd).
      rewrite decide_True by auto. congruence. }
    assert (Hread_b : value (DataViewImpl.readMem D (a + 1) s2) = Ok hi).
    { unfold s2.
      rewrite (dv_read_after_write D page (a + 1) hi (a + 1) s1 r1 d1' ltac:(lia) Hw1' Hcov1').
      rewrite HresB. rewrite decide_True by auto. congruence. }
    assert (Hs02 : same_sizes (blocks s) (blocks s2))
      by (eapply same_sizes_trans; eassumption).
    assert (Hr02 : memReadMap s2 = memReadMap s) by congruence.
    rewrite (dv_word_in_page D s2 a Ha').
    + rewrite Hread_a, Hread_b. cbn [word_of]. rewrite lor_shiftl_8 by lia. reflexivity.
    + apply (dv_mapped_after s s2 a r d); assumption.
    + apply (dv_mapped_after s s2 (a + 1) r1 d1); assumption.
  - intros page s r arr r1 arr1 Hw Hr Hw1 Hr1.
    set (s1 := final (ArrayImpl.writeMem page a lo s)).
    destruct (arr_write_final page a lo s r arr ltac:(lia) Hw) as [Hs1 _].
    fold s1 in Hs1.
    destruct (resolve_js_index _ _ _ _ _ Hw) as [_ Hd].
    assert (Hw1' : exists arr1', resolve (blocks s1) (memWriteMap s1) (js_shr (a + 1) 10)
                                 = Some (r1, arr1')).
    { rewrite Hs1. change (memWriteMap (with_block s r _)) with (memWriteMap s).
      rewrite resolve_with_block by eauto. rewrite Hw1. eauto. }
    destruct Hw1' as (arr1' & Hw1').
    assert (HresA : exists x, resolve (blocks s1) (memReadMap s1) (js_shr a 10) = Some (r, x)).
    { rewrite Hs1. change (memReadMap (with_block s r _)) with (memReadMap s).
      rewrite resolve_with_block by eauto.
      rewrite (resolve_bound _ _ _ _ _ Hr Hd). eauto. }
    destruct HresA as (xA & HresA).
    destruct (resolve_js_index _ _ _ _ _ Hw1) as [_ Hd1].
    assert (HresB : exists x, resolve (blocks s1) (memReadMap s1) (js_shr (a + 1) 10)
                              = Some (r1, x)).
    { rewrite Hs1. change (memReadMap (with_block s r _)) with (memReadMap s).
      rewrite resolve_with_block by eauto.
      rewrite (resolve_bound _ _ _ _ _ Hr1 Hd1). eauto. }
    destruct HresB as (xB & HresB).
    rewrite arr_readMemWord_value.
    rewrite (arr_read_after_write page (a + 1) hi a s1 r1 arr1' ltac:(lia) Hw1').
    rewrite HresA. rewrite decide_False by (intros [_ He]; congruence).
    unfold s1 at 1.
    rewrite (arr_read_after_write page a lo a s r arr ltac:(lia) Hw).
    rewrite (resolve_bound _ _ _ _ _ Hr Hd). rewrite decide_True by auto.
    rewrite (arr_read_after_write page (a + 1) hi (a + 1) s1 r1 arr1' ltac:(lia) Hw1').
    rewrite HresB. rewrite decide_True by auto.
    cbn [word_of]. rewrite Hlo', Hhi'. rewrite lor_shiftl_8 by lia. reflexivity.
Qed.

Lemma word_after_two_writes_witness :
  value (DataViewImpl.readMemWord true 0x03FF
           (final (DataViewImpl.writeMem true page_nop 0x0400 0x12
                     (final (DataViewImpl.writeMem true page_nop 0x03FF 0x34
                               (flat (zero_bytes 1024)))))))
    = Ok 0x1234.
Proof.
  pose proof (proj1 (word_after_two_writes 0x03FF 0x34 0x12 ltac:(lia) ltac:(lia)
                       ltac:(lia) ltac:(lia))
                true page_nop (flat (zero_bytes 1024))
                0%nat (zero_bytes 1024) 0%nat (zero_bytes 1024)
                ltac:(vm_compute; reflexivity) ltac:(vm_compute; reflexivity)
                ltac:(vm_compute; reflexivity) ltac:(vm_compute; reflexivity)
                ltac:(vm_compute; reflexivity) ltac:(vm_compute; reflexivity)) as H.
  vm_compute in H. vm_compute. exact H.
Defined.

(** * Further properties of the bulk copy *)

Lemma dv_copy_step_frame (src dest : Ref) (sp dp i : Z) (h h' : gmap Ref (list byte)) :
  DataViewImpl.copy_step src sp dest dp i h = Ok h' ->
  (forall r, r <> dest -> h' !! r = h !! r) /\ same_sizes h h'.
Proof.
  unfold DataViewImpl.copy_step.
  destruct (h !! dest) as [d |] eqn:Hd; [| discriminate].
  destruct (h !! src) as [s |]; [| discriminate].
  destruct (DataViewImpl.getInt8 s (sp + i)) as [x | e]; [| discriminate].
  unfold DataViewImpl.setInt8.
  destruct ((dp + i <? 0) || _); [discriminate |].
  intros [= <-]. split.
  - intros r Hr. rewrite lookup_insert_ne by congruence. reflexivity.
  - intros r. destruct (decide (dest = r)) as [<- | Hne].
    + rewrite lookup_insert_eq, Hd. cbn. rewrite length_insert. reflexivity.
    + rewrite lookup_insert_ne by exact Hne. reflexivity.
Qed.

Lemma dv_copy_loop_frame (src dest : Ref) (sp dp : Z) (fuel : nat) :
  forall (len : Z) (n : nat) (h : gmap Ref (list byte)) (o : CopyOutcome (list byte)),
    DataViewImpl.copy_loop fuel src sp dest dp len n h = Some o ->
    (forall r, r <> dest -> heap_after o !! r = h !! r) /\ same_sizes h (heap_after o).
Proof.
  induction fuel as [| fuel IH]; intros len n h o Hrun; [discriminate |].
  cbn [DataViewImpl.copy_loop] in Hrun.
  destruct (len =? 0).
  - injection Hrun as <-. cbn. split; [reflexivity | apply same_sizes_refl].
  - destruct (DataViewImpl.copy_step src sp dest dp (len - 1) h) as [h' | e] eqn:Hstep.
    + destruct (dv_copy_step_frame _ _ _ _ _ _ _ Hstep) as [Hf Hs].
      destruct (IH _ _ _ _ Hrun) as [Hf' Hs'].
      split.
      * intros r Hr. rewrite (Hf' r Hr). apply Hf. exact Hr.
      * eapply same_sizes_trans; eassumption.
    + injection Hrun as <-. cbn. split; [reflexivity | apply same_sizes_refl].
Qed.

Lemma arr_copy_step_frame (src dest : Ref) (sp dp i : Z)
    (h h' : gmap Ref (gmap Z JsVal)) :
  ArrayImpl.copy_step src sp dest dp i h = Ok h' ->
  (forall r, r <> dest -> h' !! r = h !! r) /\ dom h' = dom h.
Proof.
  unfold ArrayImpl.copy_step.
  destruct (h !! dest) as [d |] eqn:Hd; [| discriminate].
  destruct (h !! src) as [s |]; [| discriminate].
  intros [= <-]. split.
  - intros r Hr. rewrite lookup_insert_ne by congruence. reflexivity.
  - rewrite dom_insert_L.
    assert (Hin : dest ∈ dom h) by (apply elem_of_dom; eauto).
    apply set_eq. intros x. rewrite elem_of_union, elem_of_singleton.
    split; [intros [-> | Hx]; assumption | auto].
Qed.

Lemma arr_copy_loop_frame (src dest : Ref) (sp dp : Z) (fuel : nat) :
  forall (len : Z) (n : nat) (h : gmap Ref (gmap Z JsVal)) (o : CopyOutcome (gmap Z JsVal)),
    ArrayImpl.copy_loop fuel src sp dest dp len n h = Some o ->
    (forall r, r <> dest -> heap_after o !! r = h !! r) /\ dom (heap_after o) = dom h.
Proof.
  induction fuel as [| fuel IH]; intros len n h o Hrun; [discriminate |].
  cbn [ArrayImpl.copy_loop] in Hrun.
  destruct (len =? 0).
  - injection Hrun as <-. cbn. auto.
  - destruct (ArrayImpl.copy_step src sp dest dp (len - 1) h) as [h' | e] eqn:Hstep.
    + destruct (arr_copy_step_frame _ _ _ _ _ _ _ Hstep) as [Hf Hs].
      destruct (IH _ _ _ _ Hrun) as [Hf' Hs'].
      split.
      * intros r Hr. rewrite (Hf' r Hr). apply Hf. exact Hr.
      * congruence.
    + injection Hrun as <-. cbn. auto.
Qed.

(** X6: a copy writes to the destination block only.  However the call ends
    (normally, or by an exception half way), for any positions and any
    [length], every block other than [dest] is exactly as before, no block
    appears or disappears, and no [DataView] changes its [byteLength]. *)
Theorem copy_touches_only_dest (fuel : nat) (src dest : Ref) (srcPos destPos length : Z) :
  (forall h o,
     DataViewImpl.copyArrayElements fuel src srcPos dest destPos length h = Some o ->
     (forall r, r <> dest -> heap_after o !! r = h !! r) /\
     same_sizes h (heap_after o)) /\
  (forall h o,
     ArrayImpl.copyArrayElements fuel src srcPos dest destPos length h = Some o ->
     (forall r, r <> dest -> heap_after o !! r = h !! r) /\
     dom (heap_after o) = dom h).
Proof.
  split; intros h o Hrun.
  - exact (dv_copy_loop_frame src dest srcPos destPos fuel length 0%nat h o Hrun).
  - exact (arr_copy_loop_frame src dest srcPos destPos fuel length 0%nat h o Hrun).
Qed.

Lemma copy_touches_only_dest_witness :
  exists o,
    DataViewImpl.copyArrayElements 4 0%nat (-1) 1%nat 0 3
      {[ 0%nat := bytes_1_to_8; 1%nat := zero_bytes 8 ]} = Some o /\
    heap_after o !! 0%nat = Some bytes_1_to_8.
Proof.
  destruct (DataViewImpl.copyArrayElements 4 0%nat (-1) 1%nat 0 3
              {[ 0%nat := bytes_1_to_8; 1%nat := zero_bytes 8 ]}) as [o |] eqn:Hrun;
    [| vm_compute in Hrun; discriminate].
  exists o. split; [reflexivity |].
  destruct (proj1 (copy_touches_only_dest 4 0%nat 1%nat (-1) 0 3) _ o Hrun) as [Hf _].
  etransitivity; [apply Hf; discriminate | reflexivity].
Defined.








(** * Allocation *)

Lemma alloc_fresh {B : Type} (h : gmap Ref B) (b : B) :
  h !! (alloc h b).1 = None /\
  (alloc h b).2 !! (alloc h b).1 = Some b /\
  (forall r, r <> (alloc h b).1 -> (alloc h b).2 !! r = h !! r).
Proof.
  unfold alloc. cbn [fst snd].
  split; [| split].
  - apply not_elem_of_dom. apply is_fresh.
  - apply lookup_insert_eq.
  - intros r Hr. apply lookup_insert_ne. congruence.
Qed.

Lemma zero_bytes_read (n : nat) (i : Z) :
  DataViewImpl.getUint8 (zero_bytes n) i =
    if decide (0 <= i < Z.of_nat n) then Ok 0 else Throw RangeError.
Proof.
  unfold zero_bytes.
  destruct (decide (0 <= i < Z.of_nat n)) as [Hin | Hout].
  - rewrite dv_getUint8_lookup by lia.
    rewrite lookup_replicate_2 by lia. reflexivity.
  - unfold DataViewImpl.getUint8, DataViewImpl.byteLength. rewrite length_replicate.
    destruct (i <? 0) eqn:E1; [reflexivity |].
    destruct (Z.of_nat n <? i + 1) eqn:E2; [reflexivity | lia].
Qed.

(** X8: a new [DataView] block.  [Array(length)] with [length] omitted, or
    an integer from 0 up to what the platform grants, returns a block that
    did not exist before, of [byteLength] equal to [length] ([0] when
    omitted), whose every byte reads [0] and outside of which every read is a
    [RangeError]; the blocks that existed are untouched.  A negative [length]
    is a [RangeError] and allocates nothing. *)
Theorem new_dataview_block (limit : Z) (length : option Z) (h : gmap Ref (list byte)) :
  let len := match length with Some z => z | None => 0 end in
  (0 <= len <= limit ->
   exists r h' d,
     DataViewAlloc.Array limit length h = Ok (r, h') /\
     h !! r = None /\ h' !! r = Some d /\
     (forall r', r' <> r -> h' !! r' = h !! r') /\
     DataViewImpl.byteLength d = len /\
     (forall i, 0 <= i < len -> DataViewImpl.getUint8 d i = Ok 0) /\
     (forall i, ~ (0 <= i < len) -> DataViewImpl.getUint8 d i = Throw RangeError)) /\
  (len < 0 -> DataViewAlloc.Array limit length h = Throw RangeError).
Proof.
  cbn zeta. set (len := match length with Some z => z | None => 0 end).
  assert (Hnorm : match length with
                  | None => 0
                  | Some z => if z =? 0 then 0 else z
                  end = len).
  { subst len. destruct length as [z |]; [| reflexivity].
    destruct (z =? 0) eqn:E; lia. }
  unfold DataViewAlloc.Array. rewrite Hnorm. split.
  - intros Hlen.
    destruct (len <? 0) eqn:E1; [lia |].
    destruct (limit <? len) eqn:E2; [lia |]. cbn [orb].
    destruct (alloc_fresh h (zero_bytes (Z.to_nat len))) as (Hnew & Hblk & Hold).
    eexists _, _, _. split; [apply f_equal; apply surjective_pairing |].
    split; [exact Hnew |]. split; [exact Hblk |]. split; [exact Hold |].
    split.
    + unfold DataViewImpl.byteLength, zero_bytes. rewrite length_replicate. lia.
    + split; intros i Hi; rewrite zero_bytes_read.
      * rewrite decide_True by lia. reflexivity.
      * rewrite decide_False by lia. reflexivity.
  - intros Hneg. destruct (len <? 0) eqn:E1; [reflexivity | lia].
Qed.

Lemma new_dataview_block_witness :
  (exists r h' d,
     DataViewAlloc.Array 0x10000 (Some 1024) {[ 0%nat := bytes_1_to_8 ]} = Ok (r, h') /\
     h' !! r = Some d /\ h' !! 0%nat = Some bytes_1_to_8 /\
     DataViewImpl.getUint8 d 1023 = Ok 0) /\
  DataViewAlloc.Array 0x10000 (Some (-1)) ∅ = Throw RangeError.
Proof.
  split.
  - destruct (proj1 (new_dataview_block 0x10000 (Some 1024) {[ 0%nat := bytes_1_to_8 ]})
                ltac:(cbn; lia)) as (r & h' & d & Hrun & Hnew & Hblk & Hold & _ & Hz & _).
    exists r, h', d. split; [exact Hrun |]. split; [exact Hblk |]. split.
    + rewrite Hold; [apply lookup_singleton_eq |].
      intros <-. rewrite lookup_singleton_eq in Hnew. discriminate.
    + apply Hz. lia.
  - apply (proj2 (new_dataview_block 0x10000 (Some (-1)) ∅)). cbn. lia.
Defined.

Lemma same_memory_dom (sd : Store (list byte)) (sa : Store (gmap Z JsVal)) :
  same_memory sd sa -> dom (blocks sd) = dom (blocks sa).
Proof.
  intros (_ & _ & Hblk). apply set_eq. intros r. rewrite !elem_of_dom.
  specialize (Hblk r).
  destruct (blocks sd !! r), (blocks sa !! r); try contradiction;
    split; intros [x Hx]; try discriminate; eauto.
Qed.

(** X9: the two strategies allocate alike.  From stores holding the same
    memory, [Array(length)] with [length] omitted or in [0, 2^32 - 1] (and
    within what the platform grants for a buffer) succeeds in both builds,
    returns the same reference, and the stores with
    the new blocks still hold the same memory (a fresh array reads as zeros,
    like a fresh buffer): the simulation behind the agreement of the two
    strategies extends over allocation. *)
Theorem strategies_allocate_alike (limit : Z) (length : option Z)
    (sd : Store (list byte)) (sa : Store (gmap Z JsVal))
    (Hsim : same_memory sd sa)
    (Hlen : match length with
            | Some z => 0 <= z <= 2 ^ 32 - 1 /\ z <= limit
            | None => 0 <= limit
            end) :
  exists r hd ha,
    DataViewAlloc.Array limit length (blocks sd) = Ok (r, hd) /\
    ArrayAlloc.Array length (blocks sa) = Ok (r, ha) /\
    blocks sd !! r = None /\ blocks sa !! r = None /\
    same_memory (mkStore hd (memReadMap sd) (memWriteMap sd))
                (mkStore ha (memReadMap sa) (memWriteMap sa)).
Proof.
  pose proof (same_memory_dom sd sa Hsim) as Hdom.
  destruct Hsim as (Hr & Hw & Hblk).
  set (len := match length with Some z => z | None => 0 end).
  assert (Hl : 0 <= len <= 2 ^ 32 - 1 /\ len <= limit) by (subst len; destruct length; lia).
  assert (Hd : DataViewAlloc.Array limit length (blocks sd) =
               Ok (alloc (blocks sd) (zero_bytes (Z.to_nat len)))).
  { unfold DataViewAlloc.Array.
    replace (match length with None => 0 | Some z => if z =? 0 then 0 else z end)
      with len by (subst len; destruct length as [z |]; [destruct (z =? 0) eqn:E; lia | reflexivity]).
    destruct (len <? 0) eqn:E1; [lia |].
    destruct (limit <? len) eqn:E2; [lia |]. reflexivity. }
  assert (Ha : ArrayAlloc.Array length (blocks sa) = Ok (alloc (blocks sa) ∅)).
  { unfold ArrayAlloc.Array. destruct length as [z |]; [| reflexivity].
    destruct (z <? 0) eqn:E1; [lia |].
    destruct (2 ^ 32 - 1 <? z) eqn:E2; [lia |]. reflexivity. }
  exists (fresh (dom (blocks sd))),
         (<[fresh (dom (blocks sd)) := zero_bytes (Z.to_nat len)]> (blocks sd)),
         (<[fresh (dom (blocks sd)) := ∅]> (blocks sa)).
  split; [exact Hd |].
  split; [rewrite Ha; unfold alloc; rewrite Hdom; reflexivity |].
  split; [apply not_elem_of_dom; apply is_fresh |].
  split; [apply not_elem_of_dom; rewrite <- Hdom; apply is_fresh |].
  split; [exact Hr |]. split; [exact Hw |].
  intros r. cbn [blocks].
  destruct (decide (fresh (dom (blocks sd)) = r)) as [<- | Hne].
  - rewrite !lookup_insert_eq. apply same_contents_fresh.
  - rewrite !lookup_insert_ne by exact Hne. apply Hblk.
Qed.

Lemma strategies_allocate_alike_witness :
  exists r hd ha,
    DataViewAlloc.Array 0x10000 (Some 1024) (blocks (flat (zero_bytes 1024))) = Ok (r, hd) /\
    ArrayAlloc.Array (Some 1024) (blocks (flat ∅)) = Ok (r, ha).
Proof.
  destruct (strategies_allocate_alike 0x10000 (Some 1024) (flat (zero_bytes 1024)) (flat ∅)
              (same_memory_flat _ _ (same_contents_fresh 1024)) ltac:(cbn; lia))
    as (r & hd & ha & Hd & Ha & _).
  exists r, hd, ha. split; assumption.
Defined.

(** * [toHex] *)

Lemma hex_digit_roundtrip (d : Z) :
  0 <= d < 16 -> hex_digit_value (upper_char (hex_digit d)) = Some d.
Proof.
  intros Hd.
  assert (H : d = 0 \/ d = 1 \/ d = 2 \/ d = 3 \/ d = 4 \/ d = 5 \/ d = 6 \/ d = 7 \/
              d = 8 \/ d = 9 \/ d = 10 \/ d = 11 \/ d = 12 \/ d = 13 \/ d = 14 \/ d = 15)
    by lia.
  repeat (destruct H as [-> | H]; [reflexivity |]). subst d. reflexivity.
Qed.

Lemma parse_hex_from_app (l1 l2 : list ascii) :
  forall v,
    parse_hex_from v (l1 ++ l2) =
      match parse_hex_from v l1 with
      | Some v' => parse_hex_from v' l2
      | None => None
      end.
Proof.
  induction l1 as [| c l1 IH]; intros v; cbn [app parse_hex_from]; [reflexivity |].
  destruct (hex_digit_value c); [apply IH | reflexivity].
Qed.

Lemma digits16_S (fuel : nat) (n : Z) (acc : list ascii) :
  digits16 (S fuel) n acc =
    if n <? 16 then hex_digit (n mod 16) :: acc
    else digits16 fuel (n / 16) (hex_digit (n mod 16) :: acc).
Proof. reflexivity. Qed.

(** The digits that [digits16] writes: at least one, no leading zero, and
    they spell [n]. *)
Lemma digits16_spec (fuel : nat) :
  forall (n : Z) (acc : list ascii),
    0 <= n < 16 ^ Z.of_nat (S fuel) ->
    exists ds,
      digits16 (S fuel) n acc = ds ++ acc /\
      (1 <= length ds)%nat /\
      n < 16 ^ Z.of_nat (length ds) /\
      (length ds = 1%nat \/ 16 ^ (Z.of_nat (length ds) - 1) <= n) /\
      (forall v, parse_hex_from v (toUpperCase ds) = Some (16 ^ Z.of_nat (length ds) * v + n)).
Proof.
  induction fuel as [| fuel IH]; intros n acc Hn.
  - change (16 ^ Z.of_nat 1) with 16 in Hn.
    exists [hex_digit (n mod 16)]. rewrite digits16_S.
    destruct (n <? 16) eqn:E; [| lia].
    rewrite Z.mod_small by lia.
    split; [reflexivity |]. split; [cbn; lia |]. split; [cbn; lia |].
    split; [left; reflexivity |].
    intros v. cbn [toUpperCase map parse_hex_from length].
    rewrite hex_digit_roundtrip by lia. f_equal.
  - rewrite digits16_S.
    destruct (n <? 16) eqn:E.
    + exists [hex_digit (n mod 16)].
      rewrite Z.mod_small by lia.
      split; [reflexivity |]. split; [cbn; lia |]. split; [cbn; lia |].
      split; [left; reflexivity |].
      intros v. cbn [toUpperCase map parse_hex_from length].
      rewrite hex_digit_roundtrip by lia. f_equal.
    + assert (Hq : 0 <= n / 16 < 16 ^ Z.of_nat (S fuel)).
      { split; [apply Z.div_pos; lia |].
        apply Z.div_lt_upper_bound; [lia |].
        rewrite <- Z.pow_succ_r by lia. rewrite <- Nat2Z.inj_succ. lia. }
      destruct (IH (n / 16) (hex_digit (n mod 16) :: acc) Hq)
        as (ds' & Hrun & Hlen & Hub & Hlb & Hparse).
      pose proof (Z.div_mod n 16 ltac:(lia)) as Hdm.
      pose proof (Z.mod_pos_bound n 16 ltac:(lia)) as Hm.
      exists (ds' ++ [hex_digit (n mod 16)]).
      rewrite Hrun, <- app_assoc. split; [reflexivity |].
      rewrite length_app. cbn [length].
      replace (Z.of_nat (length ds' + 1)) with (Z.succ (Z.of_nat (length ds'))) by lia.
      rewrite Z.pow_succ_r by lia.
      split; [lia |]. split; [lia |]. split.
      * right. replace (Z.succ (Z.of_nat (length ds')) - 1) with (Z.of_nat (length ds')) by lia.
        destruct Hlb as [H1 | Hlb].
        -- rewrite H1. change (16 ^ Z.of_nat 1) with 16. lia.
        -- replace (Z.of_nat (length ds')) with (Z.succ (Z.of_nat (length ds') - 1)) by lia.
           rewrite Z.pow_succ_r by lia. lia.
      * intros v. unfold toUpperCase. rewrite map_app. fold (toUpperCase ds').
        rewrite parse_hex_from_app, Hparse. cbn [map parse_hex_from].
        rewrite hex_digit_roundtrip by lia. f_equal. lia.
Qed.

Lemma digits16_fuel (n : Z) : 0 <= n -> n < 16 ^ Z.of_nat (S (Z.to_nat (Z.log2 n))).
Proof.
  intros Hn. pose proof (Z.log2_nonneg n) as Hl.
  replace (Z.of_nat (S (Z.to_nat (Z.log2 n)))) with (Z.succ (Z.log2 n)) by lia.
  destruct (Z.eq_dec n 0) as [-> | Hne].
  - cbn. lia.
  - destruct (Z.log2_spec n ltac:(lia)) as [_ Hub].
    assert (2 ^ Z.succ (Z.log2 n) <= 16 ^ Z.succ (Z.log2 n))
      by (apply Z.pow_le_mono_l; lia).
    lia.
Qed.

(** The hexadecimal digits of [n >= 0] as [toHex] prints them before
    padding: upper case, no leading zero, spelling [n]. *)
Lemma upper_digits (n : Z) :
  0 <= n ->
  exists ds,
    toUpperCase (digits16 (S (Z.to_nat (Z.log2 n))) n []) = ds /\
    (1 <= length ds)%nat /\
    n < 16 ^ Z.of_nat (length ds) /\
    (length ds = 1%nat \/ 16 ^ (Z.of_nat (length ds) - 1) <= n) /\
    parse_hex_from 0 ds = Some n.
Proof.
  intros Hn.
  destruct (digits16_spec (Z.to_nat (Z.log2 n)) n [] ltac:(split; [lia | apply digits16_fuel; lia]))
    as (ds & Hrun & Hlen & Hub & Hlb & Hparse).
  rewrite app_nil_r in Hrun. rewrite Hrun.
  exists (toUpperCase ds).
  assert (Hl : length (toUpperCase ds) = length ds) by apply length_map.
  rewrite Hl.
  split; [reflexivity |]. split; [exact Hlen |]. split; [exact Hub |].
  split; [exact Hlb |]. rewrite Hparse. f_equal. lia.
Qed.

Lemma toHex_nonneg_shape (dec : Z) :
  0 <= dec ->
  exists ds,
    toHex dec = "0"%char :: "x"%char
                :: (if (length ds mod 2 =? 1)%nat then "0"%char :: ds else ds) /\
    (1 <= length ds)%nat /\
    dec < 16 ^ Z.of_nat (length ds) /\
    (length ds = 1%nat \/ 16 ^ (Z.of_nat (length ds) - 1) <= dec) /\
    parse_hex_from 0 ds = Some dec.
Proof.
  intros Hdec.
  destruct (upper_digits dec Hdec) as (ds & Hds & Hlen & Hub & Hlb & Hparse).
  exists ds. unfold toHex, toString16.
  destruct (dec <? 0) eqn:E; [lia |].
  rewrite Hds. auto.
Qed.

Lemma parity_cases (n : nat) :
  ((n mod 2 =? 1)%nat = true /\ exists q, n = (2 * q + 1)%nat) \/
  ((n mod 2 =? 1)%nat = false /\ exists q, n = (2 * q)%nat).
Proof.
  pose proof (Nat.div_mod_eq n 2) as Hdm.
  pose proof (Nat.mod_upper_bound n 2 ltac:(lia)) as Hm.
  destruct (n mod 2 =? 1)%nat eqn:E.
  - left. split; [reflexivity |]. exists (n / 2)%nat.
    apply Nat.eqb_eq in E. lia.
  - right. split; [reflexivity |]. exists (n / 2)%nat.
    apply Nat.eqb_neq in E. lia.
Qed.

(** X10: [toHex] of a non-negative integer can be read back.  The result is
    ["0x"] followed by an even, non-zero number of upper-case hexadecimal
    digits whose value is the input. *)
Theorem toHex_reads_back (dec : Z) (Hdec : 0 <= dec) :
  exists ds,
    toHex dec = "0"%char :: "x"%char :: ds /\
    (length ds mod 2 = 0)%nat /\ (2 <= length ds)%nat /\
    parse_hex ds = Some dec.
Proof.
  destruct (toHex_nonneg_shape dec Hdec) as (ds & Hshape & Hlen & _ & _ & Hparse).
  rewrite Hshape.
  destruct (parity_cases (length ds)) as [[-> (q & Hq)] | [-> (q & Hq)]].
  - exists ("0"%char :: ds). split; [reflexivity |]. cbn [length]. rewrite Hq.
    split; [| split; [lia |]].
    + replace (S (2 * q + 1)) with (0 + (q + 1) * 2)%nat by lia.
      apply Nat.Div0.mod_add.
    + cbn [parse_hex parse_hex_from]. change (hex_digit_value "0") with (Some 0).
      cbn iota. exact Hparse.
  - exists ds. split; [reflexivity |]. rewrite Hq.
    split; [| split; [lia |]].
    + replace (2 * q)%nat with (0 + q * 2)%nat by lia. apply Nat.Div0.mod_add.
    + destruct ds as [| c ds]; [cbn in Hlen; lia | exact Hparse].
Qed.

Lemma toHex_reads_back_witness :
  exists ds, toHex 0xBEEF = "0"%char :: "x"%char :: ds /\ parse_hex ds = Some 0xBEEF.
Proof.
  destruct (toHex_reads_back 0xBEEF ltac:(lia)) as (ds & Hs & _ & _ & Hp).
  exists ds. split; assumption.
Defined.

Lemma pow256 (k : Z) : 0 <= k -> 256 ^ k = 16 ^ (2 * k).
Proof. intros Hk. rewrite Z.pow_mul_r by lia. reflexivity. Qed.

(** X11: [toHex] pads to whole bytes and no further.  For a non-negative
    integer and [k >= 1], the result has at most [2k] hexadecimal digits
    (after ["0x"]) exactly when the input is below [256^k]: a byte prints as
    four characters, a 16-bit value as four or six. *)
Theorem toHex_width (dec k : Z) (Hdec : 0 <= dec) (Hk : 1 <= k) :
  dec < 256 ^ k <-> Z.of_nat (length (toHex dec)) <= 2 + 2 * k.
Proof.
  destruct (toHex_nonneg_shape dec Hdec) as (ds & Hshape & Hlen & Hub & Hlb & _).
  rewrite Hshape, pow256 by lia.
  set (L := Z.of_nat (length ds)) in *.
  assert (HL : 1 <= L) by lia.
  assert (Hcase : (length ds = 1%nat <-> L = 1)) by (subst L; lia).
  destruct (parity_cases (length ds)) as [[-> (q & Hq)] | [-> (q & Hq)]];
    cbn [length]; rewrite ?Nat2Z.inj_succ; fold L.
  - assert (HLq : L = 2 * Z.of_nat q + 1) by (subst L; lia).
    split.
    + intros Hlt. destruct Hlb as [H1 | Hlb]; [apply Hcase in H1; lia |].
      assert (L - 1 < 2 * k).
      { apply (Z.pow_lt_mono_r_iff 16); lia. }
      lia.
    + intros Hle. assert (16 ^ L <= 16 ^ (2 * k)) by (apply Z.pow_le_mono_r; lia). lia.
  - assert (HLq : L = 2 * Z.of_nat q) by (subst L; lia).
    split.
    + intros Hlt. destruct Hlb as [H1 | Hlb]; [apply Hcase in H1; lia |].
      assert (L - 1 < 2 * k).
      { apply (Z.pow_lt_mono_r_iff 16); lia. }
      lia.
    + intros Hle. assert (16 ^ L <= 16 ^ (2 * k)) by (apply Z.pow_le_mono_r; lia). lia.
Qed.

Lemma toHex_width_witness :
  Z.of_nat (length (toHex 0xFF)) <= 4 /\ ~ (Z.of_nat (length (toHex 0x100)) <= 4).
Proof.
  split.
  - apply (proj1 (toHex_width 0xFF 1 ltac:(lia) ltac:(lia))). lia.
  - intros H. apply (proj2 (toHex_width 0x100 1 ltac:(lia) ltac:(lia))) in H. lia.
Defined.

(** X12: [toHex] of a negative integer.  The minus sign that [toString(16)]
    writes counts as a character of the string that is padded: the result is
    ["0x-"] followed by the digits of [-dec] when their number is odd, and
    ["0x0-"] followed by them when it is even (the padding zero lands before
    the sign). *)
Theorem toHex_negative (dec : Z) (Hdec : dec < 0) :
  exists ds,
    parse_hex ds = Some (- dec) /\
    toHex dec = "0"%char :: "x"%char
                :: (if Nat.even (length ds) then "0"%char :: "-"%char :: ds
                    else "-"%char :: ds).
Proof.
  destruct (upper_digits (- dec) ltac:(lia)) as (ds & Hds & Hlen & _ & _ & Hparse).
  exists ds. split.
  - destruct ds as [| c ds]; [cbn in Hlen; lia | exact Hparse].
  - unfold toHex, toString16.
    destruct (dec <? 0) eqn:E; [| lia].
    cbn [toUpperCase map]. fold (toUpperCase (digits16 (S (Z.to_nat (Z.log2 (- dec)))) (- dec) [])).
    rewrite Hds. change (upper_char "-") with "-"%char. cbn [length].
    destruct (parity_cases (length ds)) as [[Hp (q & Hq)] | [Hp (q & Hq)]].
    + (* odd number of digits: with the sign the length is even *)
      replace (Nat.even (length ds)) with false
        by (rewrite Hq, Nat.add_comm, Nat.even_add_mul_2; reflexivity).
      replace ((S (length ds) mod 2 =? 1)%nat) with false; [reflexivity |].
      symmetry. apply Nat.eqb_neq. rewrite Hq.
      replace (S (2 * q + 1)) with (0 + (q + 1) * 2)%nat by lia.
      rewrite Nat.Div0.mod_add. cbn. lia.
    + replace (Nat.even (length ds)) with true
        by (rewrite Hq; symmetry; apply Nat.even_spec; exists q; reflexivity).
      replace ((S (length ds) mod 2 =? 1)%nat) with true; [reflexivity |].
      symmetry. apply Nat.eqb_eq. rewrite Hq.
      replace (S (2 * q)) with (1 + q * 2)%nat by lia.
      rewrite Nat.Div0.mod_add. reflexivity.
Qed.

Lemma toHex_negative_witness :
  exists ds, parse_hex ds = Some 255 /\
             toHex (-255) = "0"%char :: "x"%char
                            :: (if Nat.even (length ds) then "0"%char :: "-"%char :: ds
                                else "-"%char :: ds).
Proof. exact (toHex_negative (-255) ltac:(lia)). Defined.

Example toHex_examples :
  toHex 0 = String.list_ascii_of_string "0x00"%string /\
  toHex 0xF = String.list_ascii_of_string "0x0F"%string /\
  toHex 0xBEEF = String.list_ascii_of_string "0xBEEF"%string /\
  toHex 0x100 = String.list_ascii_of_string "0x0100"%string /\
  toHex (-255) = String.list_ascii_of_string "0x0-FF"%string /\
  toHex (-15) = String.list_ascii_of_string "0x-F"%string.
Proof. repeat split; vm_compute; reflexivity. Qed.

(** * [getPrefix] *)

Lemma some_prefix_spec (arr : list string) (obj : gset string) :
  match some_prefix arr obj None with
  | Some p =>
      exists i, arr !! i = Some p /\ p ∈ obj /\
                forall j q, (j < i)%nat -> arr !! j = Some q -> q ∉ obj
  | None => forall q, q ∈ arr -> q ∉ obj
  end.
Proof.
  induction arr as [| prop rest IH]; cbn [some_prefix].
  - intros q Hq. apply elem_of_nil in Hq. contradiction.
  - destruct (decide (prop ∈ obj)) as [Hin | Hout].
    + exists 0%nat. split; [reflexivity |]. split; [exact Hin |].
      intros j q Hj. lia.
    + destruct (some_prefix rest obj None) as [p |].
      * destruct IH as (i & Hi & Hp & Hfirst).
        exists (S i). split; [exact Hi |]. split; [exact Hp |].
        intros [| j] q Hj Hq.
        -- cbn in Hq. injection Hq as <-. exact Hout.
        -- apply (Hfirst j q); [lia | exact Hq].
      * intros q Hq. apply elem_of_cons in Hq as [-> | Hq]; [exact Hout | apply IH; exact Hq].
Qed.

(** X13: [getPrefix] returns the first match.  The result is the first
    element of [arr], in the order of the array, that is a property of [obj]
    ([document] when [obj] is [undefined]); later candidates are ignored even
    when they are properties too; the result is [false] exactly when no
    element of [arr] is a property. *)
Theorem getPrefix_first_match (document : gset string) (arr : list string)
    (obj : option (gset string)) :
  let o := match obj with Some o => o | None => document end in
  match getPrefix document arr obj with
  | Some p =>
      exists i, arr !! i = Some p /\ p ∈ o /\
                forall j q, (j < i)%nat -> arr !! j = Some q -> q ∉ o
  | None => forall q, q ∈ arr -> q ∉ o
  end.
Proof.
  cbn zeta. unfold getPrefix. destruct obj as [o |]; apply some_prefix_spec.
Qed.

Example getPrefix_examples :
  getPrefix {[ "hidden"; "mozHidden" ]}%string
    [ "webkitHidden"; "mozHidden"; "hidden" ]%string None = Some "mozHidden"%string /\
  getPrefix {[ "hidden" ]}%string
    [ "webkitHidden"; "mozHidden" ]%string (Some ∅) = None /\
  getPrefix ∅ [] None = None.
Proof. repeat split; vm_compute; reflexivity. Qed.
